(** * rpdiff: the placement-validation pipeline of [proc_gen_rel_demos.py]

    A shallow embedding of the trial loop of
    [src/rpdiff/data_gen/rel_demo_aug/proc_gen_rel_demos.py] (function [main])
    and proofs about it.

    Numbers.  The script computes with numpy [float64]; here every number is
    a real ([R]), so "equal within floating tolerance" becomes equality.
    [0.2] is [2/10], [0.15] is [15/100], [np.pi] is [PI].

    Poses.  The script holds a pose either as a 7-number list
    [[x, y, z, qx, qy, qz, qw]] or as a 4x4 homogeneous matrix.  Both forms
    are kept ([pose], [mat4]); an orientation quaternion is represented by
    the rotation matrix it stands for, so [common.quat2rot] and
    [common.rot2quat] are the identity. *)

From Stdlib Require Import Reals Lra.
From stdpp Require Import gmap strings list.

Open Scope R_scope.

(** ** Exceptions and results *)

Inductive exn :=
  | ValueError      (* np.concatenate of an empty sequence *)
  | LinAlgError     (* np.linalg.inv of a singular matrix *)
  | KeyError        (* dict lookup of an absent key *)
  | PybulletError   (* a pybullet call on a body that does not exist *)
  | HelperError.    (* raised inside a collaborator *)

Inductive result (A : Type) :=
  | Ok (a : A)
  | Raise (e : exn).
Arguments Ok {A} a.
Arguments Raise {A} e.

#[global] Instance result_ret : MRet result := fun A a => Ok a.
#[global] Instance result_bind : MBind result := fun A B f m =>
  match m with Ok a => f a | Raise e => Raise e end.

Definition of_option {A} (e : exn) (o : option A) : result A :=
  match o with Some a => Ok a | None => Raise e end.

#[global] Instance R_eq_dec : EqDecision R := Req_dec_T.
#[global] Instance Rlt_decision (x y : R) : Decision (x < y) := Rlt_dec x y.
#[global] Instance Rle_decision (x y : R) : Decision (x <= y) := Rle_dec x y.

(** ** numpy arrays of fixed shape *)

Definition vec3 : Type := R * R * R.

Inductive ix3 := Y0 | Y1 | Y2.
Inductive ix4 := X0 | X1 | X2 | X3.

(** A 3x3 array, row-major. *)
Record mat3 := Mat3 {
  r00 : R; r01 : R; r02 : R;
  r10 : R; r11 : R; r12 : R;
  r20 : R; r21 : R; r22 : R }.

(** A 4x4 array, row-major. *)
Record mat4 := Mat4 {
  m00 : R; m01 : R; m02 : R; m03 : R;
  m10 : R; m11 : R; m12 : R; m13 : R;
  m20 : R; m21 : R; m22 : R; m23 : R;
  m30 : R; m31 : R; m32 : R; m33 : R }.

(** [M[i, j]] *)
Definition get3 (M : mat3) (i j : ix3) : R :=
  match i, j with
  | Y0, Y0 => r00 M | Y0, Y1 => r01 M | Y0, Y2 => r02 M
  | Y1, Y0 => r10 M | Y1, Y1 => r11 M | Y1, Y2 => r12 M
  | Y2, Y0 => r20 M | Y2, Y1 => r21 M | Y2, Y2 => r22 M
  end.

Definition get (M : mat4) (i j : ix4) : R :=
  match i, j with
  | X0, X0 => m00 M | X0, X1 => m01 M | X0, X2 => m02 M | X0, X3 => m03 M
  | X1, X0 => m10 M | X1, X1 => m11 M | X1, X2 => m12 M | X1, X3 => m13 M
  | X2, X0 => m20 M | X2, X1 => m21 M | X2, X2 => m22 M | X2, X3 => m23 M
  | X3, X0 => m30 M | X3, X1 => m31 M | X3, X2 => m32 M | X3, X3 => m33 M
  end.

(** The array whose entry [(i, j)] is [f i j]. *)
Definition build3 (f : ix3 -> ix3 -> R) : mat3 :=
  Mat3 (f Y0 Y0) (f Y0 Y1) (f Y0 Y2)
       (f Y1 Y0) (f Y1 Y1) (f Y1 Y2)
       (f Y2 Y0) (f Y2 Y1) (f Y2 Y2).

Definition build (f : ix4 -> ix4 -> R) : mat4 :=
  Mat4 (f X0 X0) (f X0 X1) (f X0 X2) (f X0 X3)
       (f X1 X0) (f X1 X1) (f X1 X2) (f X1 X3)
       (f X2 X0) (f X2 X1) (f X2 X2) (f X2 X3)
       (f X3 X0) (f X3 X1) (f X3 X2) (f X3 X3).

Definition sum3 (f : ix3 -> R) : R := f Y0 + f Y1 + f Y2.
Definition sum4 (f : ix4 -> R) : R := f X0 + f X1 + f X2 + f X3.

(** [np.eye(3)], [np.eye(4)] *)
Definition eye3 : mat3 :=
  build3 (fun i j => match i, j with Y0, Y0 | Y1, Y1 | Y2, Y2 => 1 | _, _ => 0 end).
Definition eye4 : mat4 :=
  build (fun i j =>
    match i, j with X0, X0 | X1, X1 | X2, X2 | X3, X3 => 1 | _, _ => 0 end).

(** [np.matmul] on 3x3 and on 4x4 arrays *)
Definition matmul3 (A B : mat3) : mat3 :=
  build3 (fun i j => sum3 (fun k => get3 A i k * get3 B k j)).
Definition matmul (A B : mat4) : mat4 :=
  build (fun i j => sum4 (fun k => get A i k * get B k j)).

Definition transpose3 (A : mat3) : mat3 := build3 (fun i j => get3 A j i).

(** Determinants and the adjugate, for [np.linalg.inv]. *)
Definition det3f (f : ix3 -> ix3 -> R) : R :=
  f Y0 Y0 * (f Y1 Y1 * f Y2 Y2 - f Y1 Y2 * f Y2 Y1)
  - f Y0 Y1 * (f Y1 Y0 * f Y2 Y2 - f Y1 Y2 * f Y2 Y0)
  + f Y0 Y2 * (f Y1 Y0 * f Y2 Y1 - f Y1 Y1 * f Y2 Y0).
Definition det3 (A : mat3) : R := det3f (get3 A).

(** The [k]-th index of a 4x4 array once index [i] is struck out. *)
Definition skip (i : ix4) (k : ix3) : ix4 :=
  match i, k with
  | X0, Y0 => X1 | X0, Y1 => X2 | X0, Y2 => X3
  | X1, Y0 => X0 | X1, Y1 => X2 | X1, Y2 => X3
  | X2, Y0 => X0 | X2, Y1 => X1 | X2, Y2 => X3
  | X3, Y0 => X0 | X3, Y1 => X1 | X3, Y2 => X2
  end.
Definition sign (i j : ix4) : R :=
  match i, j with
  | X0, X0 | X0, X2 | X1, X1 | X1, X3
  | X2, X0 | X2, X2 | X3, X1 | X3, X3 => 1
  | _, _ => -1
  end.
Definition cofactor (M : mat4) (i j : ix4) : R :=
  sign i j * det3f (fun a b => get M (skip i a) (skip j b)).
Definition det4 (M : mat4) : R := sum4 (fun j => get M X0 j * cofactor M X0 j).

(** The inverse matrix where there is one (adjugate over determinant). *)
Definition invert (M : mat4) : mat4 := build (fun i j => cofactor M j i / det4 M).

(** [np.linalg.inv(M)]: raises [LinAlgError] on a singular matrix. *)
Definition np_linalg_inv (M : mat4) : result mat4 :=
  if decide (det4 M = 0) then Raise LinAlgError else Ok (invert M).

(** Slices of a pose matrix. *)

(** [M[:-1, :-1]] *)
Definition rot_of (M : mat4) : mat3 :=
  Mat3 (m00 M) (m01 M) (m02 M) (m10 M) (m11 M) (m12 M) (m20 M) (m21 M) (m22 M).
(** [M[:-1, -1]] *)
Definition pos_of (M : mat4) : vec3 := (m03 M, m13 M, m23 M).
(** [M[:-1, :-1] = r] *)
Definition set_rot (M : mat4) (r : mat3) : mat4 :=
  Mat4 (r00 r) (r01 r) (r02 r) (m03 M)
       (r10 r) (r11 r) (r12 r) (m13 M)
       (r20 r) (r21 r) (r22 r) (m23 M)
       (m30 M) (m31 M) (m32 M) (m33 M).
(** [M[:-1, -1] = t] *)
Definition set_pos (M : mat4) (t : vec3) : mat4 :=
  let '(x, y, z) := t in
  Mat4 (m00 M) (m01 M) (m02 M) x
       (m10 M) (m11 M) (m12 M) y
       (m20 M) (m21 M) (m22 M) z
       (m30 M) (m31 M) (m32 M) (m33 M).
(** [M[2, -1] += dz] *)
Definition add_z (M : mat4) (dz : R) : mat4 :=
  Mat4 (m00 M) (m01 M) (m02 M) (m03 M)
       (m10 M) (m11 M) (m12 M) (m13 M)
       (m20 M) (m21 M) (m22 M) (m23 M + dz)
       (m30 M) (m31 M) (m32 M) (m33 M).

(** The pose with position [pos] and orientation [ori]: what
    [util.matrix_from_pose(util.list2pose_stamped(pos + ori))] builds. *)
Definition pose_mat (pos : vec3) (ori : mat3) : mat4 :=
  set_pos (set_rot eye4 ori) pos.

(** ** Valid poses (spec 3: orthonormal rotation block, homogeneous last row) *)

Definition rotation (r : mat3) : Prop :=
  matmul3 (transpose3 r) r = eye3 /\ det3 r = 1.

Definition homogeneous (M : mat4) : Prop :=
  m30 M = 0 /\ m31 M = 0 /\ m32 M = 0 /\ m33 M = 1.

Definition rigid (M : mat4) : Prop := homogeneous M /\ rotation (rot_of M).

(** ** Rotations from Euler angles ([airobot.utils.common]) *)

Definition rot_x (a : R) : mat3 :=
  Mat3 1 0 0
       0 (cos a) (- sin a)
       0 (sin a) (cos a).
Definition rot_y (a : R) : mat3 :=
  Mat3 (cos a) 0 (sin a)
       0 1 0
       (- sin a) 0 (cos a).
Definition rot_z (a : R) : mat3 :=
  Mat3 (cos a) (- sin a) 0
       (sin a) (cos a) 0
       0 0 1.

(** [common.euler2rot([roll, pitch, yaw])] (axes 'xyz': roll about x first,
    then pitch about y, then yaw about z, all about the fixed axes).
    [common.euler2quat] is the same rotation in quaternion form. *)
Definition euler2rot (roll pitch yaw : R) : mat3 :=
  matmul3 (rot_z yaw) (matmul3 (rot_y pitch) (rot_x roll)).
Definition euler2quat (roll pitch yaw : R) : mat3 := euler2rot roll pitch yaw.

(** ** Poses in list form

    [[x, y, z, qx, qy, qz, qw]]: a position and an orientation.  The
    orientation is kept as the rotation matrix its quaternion stands for. *)
Record pose := Pose { position : vec3; orientation : mat3 }.

(** Modelled from the spec: [util.matrix_from_pose] (after
    [util.list2pose_stamped]) is defined in the [util] module, outside this
    script; spec 3 has a pose "equivalently" as the 4x4 homogeneous matrix of
    its position and orientation. *)
Definition matrix_from_pose (p : pose) : mat4 := pose_mat (position p) (orientation p).
(** Modelled from the spec: [util.pose_from_matrix] (before
    [util.pose_stamped2list]) is defined in the [util] module, outside this
    script; by spec 3 it reads the position and the orientation off the
    translation column and the rotation block of [M]. *)
Definition pose_from_matrix (M : mat4) : pose := Pose (pos_of M) (rot_of M).

Definition valid_pose (p : pose) : Prop := rotation (orientation p).

(** Modelled from the spec: [util.unit_pose] is defined in the [util] module,
    outside this script; spec 4.4 has the identity in its place. *)
Definition unit_pose : pose := Pose (0, 0, 0) eye3.

(** ** Python dicts with string keys, in insertion order *)

Fixpoint dict_get {V} (d : list (string * V)) (k : string) : option V :=
  match d with
  | [] => None
  | (k', v) :: d' => if String.eqb k' k then Some v else dict_get d' k
  end.

(** [d[k] = v] *)
Fixpoint dict_set {V} (d : list (string * V)) (k : string) (v : V) : list (string * V) :=
  match d with
  | [] => [(k, v)]
  | (k', v') :: d' =>
      if String.eqb k' k then (k, v) :: d' else (k', v') :: dict_set d' k v
  end.

Definition dict_values {V} (d : list (string * V)) : list V := map snd d.

(** [np.all(np.asarray(l))] on booleans *)
Definition np_all (l : list bool) : bool := forallb (fun b => b) l.

(** [upright_orientation_dict] (lines 177-186) *)
Definition upright_orientation_dict : list (string * mat3) :=
  [ ("rack", euler2quat 0 0 0);
    ("mug", euler2quat (PI / 2) 0 0);
    ("bottle", euler2quat (PI / 2) 0 0);
    ("bowl", euler2quat (PI / 2) 0 0);
    ("syn_rack_easy", euler2quat 0 0 0);
    ("syn_rack_hard", euler2quat 0 0 0);
    ("cuboid", euler2quat 0 0 0);
    ("box_container", euler2quat 0 0 0) ]%string.

(** ** Point clouds: N x 3 arrays *)

Abbreviation cloud := (list vec3).

Definition vadd (p q : vec3) : vec3 :=
  let '(a, b, c) := p in let '(x, y, z) := q in (a + x, b + y, c + z).
Definition vsub (p q : vec3) : vec3 :=
  let '(a, b, c) := p in let '(x, y, z) := q in (a - x, b - y, c - z).
Definition vdot (p q : vec3) : R :=
  let '(a, b, c) := p in let '(x, y, z) := q in a * x + b * y + c * z.
Definition vscale (k : R) (p : vec3) : vec3 :=
  let '(a, b, c) := p in (k * a, k * b, k * c).

(** [np.linalg.norm(v)] (2-norm) *)
Definition np_linalg_norm (v : vec3) : R := sqrt (vdot v v).

(** [np.concatenate(arrs, axis=0)]: raises [ValueError] when [arrs] is the
    empty sequence. *)
Definition np_concatenate (arrs : list cloud) : result cloud :=
  match arrs with
  | [] => Raise ValueError
  | _ => Ok (concat arrs)
  end.

(** [np.mean(c, axis=0)].  On an empty array numpy warns and returns nan;
    here the quotient by zero is whatever [/ 0] is, and no point is ever
    compared with it. *)
Definition np_mean (c : cloud) : vec3 :=
  vscale (/ INR (length c)) (foldr vadd (0, 0, 0) c).

(** Lines 612-618, for one object: the fused, outlier-filtered cloud stored in
    [pc_obs_info['pcd'][pc]] from the per-camera clouds [obj_pcd_pts]. *)
Definition target_obj_pcd_obs (obj_pcd_pts : list cloud) : result cloud :=
  target_obj_pcd_obs ← np_concatenate obj_pcd_pts;
  let target_pts_mean := np_mean target_obj_pcd_obs in
  mret (filter (fun p => np_linalg_norm (vsub p target_pts_mean) < 2 / 10)
               target_obj_pcd_obs).

(** Modelled from the spec: [util.transform_pcd] is defined in the [util]
    module, outside this script; spec 4.6 has the cloud "rigidly transformed
    by" the 4x4 transform, which is applied to each point in homogeneous
    coordinates. *)
Definition transform_point (T : mat4) (p : vec3) : vec3 :=
  let '(x, y, z) := p in
  (m00 T * x + m01 T * y + m02 T * z + m03 T,
   m10 T * x + m11 T * y + m12 T * z + m13 T,
   m20 T * x + m21 T * y + m22 T * z + m23 T).
Definition transform_pcd (pcd : cloud) (T : mat4) : cloud := map (transform_point T) pcd.

(** Modelled from the spec: [util.angle_from_3d_vectors] is defined in the
    [util] module, outside this script; spec 4.5 has "the angle between an
    object body axis and world-up". *)
Definition angle_from_3d_vectors (u v : vec3) : R :=
  acos (vdot u v / (np_linalg_norm u * np_linalg_norm v)).

(** [np.deg2rad] *)
Definition np_deg2rad (d : R) : R := d * (PI / 180).

(** ** Frame algebra *)

(** Modelled from the spec: [util.convert_reference_frame] is defined in the
    [util] module, outside this script.  Spec 3: "result = pose_frame_target o
    (pose_frame_source^-1 o pose_source)", with [compose] and [invert] of
    spec 4.1. *)
Definition compose (a b : pose) : pose :=
  pose_from_matrix (matmul (matrix_from_pose a) (matrix_from_pose b)).
Definition invert_pose (a : pose) : pose :=
  pose_from_matrix (invert (matrix_from_pose a)).
Definition convert_reference_frame_spec
    (pose_source pose_frame_target pose_frame_source : pose) : pose :=
  compose pose_frame_target (compose (invert_pose pose_frame_source) pose_source).

(** ** The two frame conversions of the stress test (lines 787-798)

    [crf] stands for [util.convert_reference_frame], called with the
    arguments (pose_source, pose_frame_target, pose_frame_source). *)

(** Lines 788-792 *)
Definition final_child_pose_parent (crf : pose -> pose -> pose -> result pose)
    (final_child_pose_mat start_parent_pose_mat : mat4) : result pose :=
  crf (pose_from_matrix final_child_pose_mat)    (* pose_source *)
      (pose_from_matrix start_parent_pose_mat)   (* pose_frame_target *)
      unit_pose.                                 (* pose_frame_source *)

(** Lines 794-798 *)
Definition final_child_pose_upside_down (crf : pose -> pose -> pose -> result pose)
    (final_child_pose_parent : pose) (upside_down_pose_mat : mat4) : result pose :=
  crf final_child_pose_parent                    (* pose_source *)
      unit_pose                                  (* pose_frame_target *)
      (pose_from_matrix upside_down_pose_mat).   (* pose_frame_source *)

(** Lines 787-798 in one piece: the child's pose for the upside-down parent. *)
Definition stress_child_pose (crf : pose -> pose -> pose -> result pose)
    (final_child_pose_mat start_parent_pose_mat upside_down_pose_mat : mat4)
    : result pose :=
  p ← final_child_pose_parent crf final_child_pose_mat start_parent_pose_mat;
  final_child_pose_upside_down crf p upside_down_pose_mat.



(** ** The simulator (pybullet, through airobot's [pb_client]) *)

(** One entry of [p.getContactPoints]. *)
Record Contact := {
  bodyUniqueIdA : Z; bodyUniqueIdB : Z;
  linkIndexA : Z; linkIndexB : Z;
  positionOnA : vec3; positionOnB : vec3;
  contactNormalOnB : vec3; contactDistance : R; normalForce : R }.

Record Sim := MkSim {
  body_state : gmap Z pose;            (* base pose of every body *)
  step_sim : bool;                     (* True: physics waits for explicit steps *)
  constraints : gmap Z (Z * pose);     (* constraint id -> (body, pose it is pinned at) *)
  next_cid : Z;                        (* id the next constraint gets *)
  collision_off : list (Z * Z) }.      (* body pairs whose collisions are filtered out *)

(** [pb_client.set_step_sim(step_mode)] *)
Definition set_step_sim (s : Sim) (step_mode : bool) : Sim :=
  MkSim (body_state s) step_mode (constraints s) (next_cid s) (collision_off s).

(** [pb_client.get_body_state(obj_id)[:2]], [p.getBasePositionAndOrientation] *)
Definition get_body_state (s : Sim) (obj_id : Z) : result pose :=
  of_option PybulletError (body_state s !! obj_id).

(** [pb_client.reset_body(obj_id, pos, ori)] *)
Definition reset_body (s : Sim) (obj_id : Z) (pos : vec3) (ori : mat3) : result Sim :=
  match body_state s !! obj_id with
  | None => Raise PybulletError
  | Some _ =>
      Ok (MkSim (<[obj_id := Pose pos ori]> (body_state s)) (step_sim s)
                (constraints s) (next_cid s) (collision_off s))
  end.

(** [pb_client.remove_body(obj_id)] *)
Definition remove_body (s : Sim) (obj_id : Z) : Sim :=
  MkSim (delete obj_id (body_state s)) (step_sim s)
        (constraints s) (next_cid s) (collision_off s).

(** Modelled from the spec: [constraint_obj_world] is defined in
    [eval_gen_utils], outside this script; spec 6 has [set_constraint(id,
    pose)], spec 4.4 "fix the parent rigidly at" the pose.  It pins the body to
    the world at the given pose and returns the constraint id. *)
Definition constraint_obj_world (s : Sim) (obj_id : Z) (pos : vec3) (ori : mat3)
    : Sim * Z :=
  (MkSim (body_state s) (step_sim s)
         (<[next_cid s := (obj_id, Pose pos ori)]> (constraints s))
         (next_cid s + 1)%Z (collision_off s),
   next_cid s).

(** Modelled from the spec: [safeRemoveConstraint] is defined in
    [eval_gen_utils], outside this script; spec 6 has [remove_constraint(id)].
    Nothing happens when [cid] is [None], as for the objects loaded without a
    constraint (line 547). *)
Definition safeRemoveConstraint (s : Sim) (cid : option Z) : Sim :=
  match cid with
  | None => s
  | Some c =>
      MkSim (body_state s) (step_sim s) (delete c (constraints s))
            (next_cid s) (collision_off s)
  end.

(** Modelled from the spec: [safeCollisionFilterPair] is defined in
    [eval_gen_utils], outside this script, and the spec leaves collision
    filtering to the simulator; the call with [enableCollision=False] records
    the pair as filtered out. *)
Definition safeCollisionFilterPair_off (s : Sim) (a b : Z) : Sim :=
  MkSim (body_state s) (step_sim s) (constraints s) (next_cid s)
        ((a, b) :: collision_off s).

(** One camera's view: its matrices, the world-frame point per pixel
    ([cam.get_pcd]) and the flattened segmentation image. *)
Record CamObs := {
  cam_int_mat : mat3;
  cam_ext_mat : mat4;
  pts_raw : cloud;
  flat_seg : list Z }.

(** ** Configuration and per-trial scene *)

Record Args := {
  parent_class : string;
  child_class : string;
  parent_load_pose_type : string;
  child_load_pose_type : string;
  upright_ori_diff_thresh : R;
  start_iteration : Z;
  num_iterations : Z }.

(** The default of [--upright_ori_diff_thresh] (line 962). *)
Definition default_upright_ori_diff_thresh : R := np_deg2rad 15.

(** An entry of [pc_master_dict]. *)
Record ObjInfo := {
  obj_class : string;
  load_pose_type : string;
  mesh_file : string;
  mesh_file_dec : string;
  mesh_scale : vec3;
  pb_obj_id : Z;
  o_cid : option Z }.

(** [dict(parent=..., child=...)] *)
Record pc (A : Type) := PC { parent : A; child : A }.
Arguments PC {A} parent child.
Arguments parent {A} p.
Arguments child {A} p.

(** What lines 360-559 leave behind for one trial: the sampled object ids, the
    mesh files and scales, and the bodies loaded into the simulator. *)
Record LoadedObj := {
  l_mesh_file : string;
  l_mesh_file_dec : string;
  l_mesh_scale : vec3;
  l_pb_obj_id : Z;
  l_o_cid : option Z }.
Record Scene := {
  parent_id : string;
  child_id : string;
  table_id : Z;
  loaded : pc LoadedObj }.

Definition pc_master_dict (args : Args) (sc : Scene) : pc ObjInfo :=
  let mk cls lpt (l : LoadedObj) :=
    Build_ObjInfo cls lpt (l_mesh_file l) (l_mesh_file_dec l) (l_mesh_scale l)
                  (l_pb_obj_id l) (l_o_cid l) in
  PC (mk (parent_class args) (parent_load_pose_type args) (parent (loaded sc)))
     (mk (child_class args) (child_load_pose_type args) (child (loaded sc))).

(** The demonstration record [aug_save_dict] (lines 869-893); the keys whose
    value is the constant [None] are left out. *)
Record aug_save_dict := {
  success : bool;
  multi_obj_names : pc string;
  multi_obj_start_pcd : pc cloud;
  multi_obj_final_pcd : pc cloud;
  cam_intrinsics : list mat3;
  cam_poses : list mat4;
  multi_object_ids : pc string;
  real_sim : string;
  multi_obj_start_obj_pose : pc pose;
  multi_obj_final_obj_pose : pc pose;
  multi_obj_mesh_file : pc string;
  multi_obj_mesh_file_dec : pc string;
  multi_obj_part_pose_dict : list (string * pose) }.

(** The state the loop carries from one trial to the next: the simulator,
    [place_success_list], and the [np.savez] calls made so far into
    [demo_aug_dir], each with the trial index of its file name
    [demo_aug_{iteration}.npz]. *)
Record World := MkWorld {
  sim : Sim;
  place_success_list : list bool;
  demo_aug_dir : list (Z * aug_save_dict) }.

(** ** Collaborators outside the script

    Everything the loop body calls but does not define: the cameras, the
    physics engine, the relation proposer and the helpers of [util]. *)
Record Collaborators := {
  (* lines 360-559 of trial [iteration]: the objects sampled and loaded into
     the simulator *)
  load_objects : Z -> Sim -> Scene * Sim;
  (* what each camera of [cams.cams] returns in a given simulator state *)
  cams_observe : Sim -> list CamObs;
  (* where the bodies are after the engine has run for the length of a
     [time.sleep] with real-time stepping on *)
  physics : Sim -> gmap Z pose;
  (* [p.getContactPoints(a, b, -1, -1)] *)
  getContactPoints : Sim -> Z -> Z -> list Contact;
  (* [proc_gen_manager.infer_relation_task(...)]: the relative transform and
     the part poses *)
  infer_relation_task :
    cloud -> cloud -> string -> string -> pose -> pose -> vec3 -> vec3 ->
    result (mat4 * list (string * pose));
  (* the box [util.crop_pcd] keeps *)
  crop_bound : vec3 -> bool;
  (* [util.convert_reference_frame(pose_source, pose_frame_target,
     pose_frame_source)] *)
  convert_reference_frame : pose -> pose -> pose -> result pose }.

(** A body is loaded in the simulator. *)
Definition has_body (s : Sim) (obj_id : Z) : Prop := is_Some (body_state s !! obj_id).

(** ** The loop body of [main], stage by stage

    The embedding follows lines 561-907.  Left out, as they feed nothing
    back into the pipeline: logging, the meshcat thread and its pauses, the
    evaluation images, the table's own points (lines 604-605), and the files
    [results.txt] and [full_config.json]. *)

(** The values of the loop body's variables at the end of a trial. *)
Record Trial := {
  t_cam_intrinsics : list mat3;
  t_cam_poses : list mat4;
  t_parent_pcd : cloud;
  t_child_pcd : cloud;
  t_start_parent_pose : pose;
  t_start_child_pose : pose;
  t_relative_trans : mat4;
  t_part_pose_dict : list (string * pose);
  t_final_child_pose_mat : mat4;
  t_final_parent_pose : pose;
  t_final_child_pose : pose;
  t_final_parent_pcd : cloud;
  t_final_child_pcd : cloud;
  t_obj_surf_contacts : list Contact;
  t_upside_down_pose_mat : mat4;
  t_final_child_pose_parent : pose;
  t_final_child_pose_upside_down : pose;
  t_ud_obj_surf_contacts : list Contact;
  t_success_crit_dict : list (string * bool);
  t_place_success : bool }.

(** What the placement composer (lines 690-713) yields. *)
Record Placement := {
  pl_sim : Sim;
  pl_final_child_pose_mat : mat4;
  pl_final_parent_pose : pose;
  pl_final_child_pose : pose }.

(** What the stress test (lines 767-810) yields. *)
Record Stress := {
  st_sim : Sim;
  st_upside_down_pose_mat : mat4;
  st_final_child_pose_parent : pose;
  st_final_child_pose_upside_down : pose;
  st_ud_obj_surf_contacts : list Contact }.

(** [len(contacts) > 0] (lines 736, 811) *)
Definition touching (contacts : list Contact) : bool :=
  bool_decide (0 < length contacts)%nat.

(** *** Placement composer: the upright correction (lines 701-702) *)

(** Line 701 *)
Definition upright_parent_pose_mat
    (start_parent_pose_mat : mat4) (upright_parent_ori_mat : mat3) : mat4 :=
  set_rot start_parent_pose_mat upright_parent_ori_mat.

(** Line 702 *)
Definition relative_upright_pose_mat
    (start_parent_pose_mat : mat4) (upright_parent_ori_mat : mat3) : result mat4 :=
  inv ← np_linalg_inv start_parent_pose_mat;
  mret (matmul (upright_parent_pose_mat start_parent_pose_mat upright_parent_ori_mat)
               inv).

(** *** Outcome evaluator: the bottle criterion (lines 743-748) *)

(** Lines 743-744: the unit vector along the body's y axis. *)
Definition bottle_body_y (bottle_final_pose : pose) : vec3 :=
  let r := orientation bottle_final_pose in
  let y := (r01 r, r11 r, r21 r) in
  vscale (/ np_linalg_norm y) y.

(** Line 747 *)
Definition angle_from_upright (bottle_final_pose : pose) : R :=
  angle_from_3d_vectors (bottle_body_y bottle_final_pose) (0, 0, 1).

(** Line 748 *)
Definition bottle_upright (args : Args) (bottle_final_pose : pose) : bool :=
  bool_decide (angle_from_upright bottle_final_pose < upright_ori_diff_thresh args).

(** *** Stability stress test: the upside-down parent pose (lines 778-780) *)

(** Line 778 *)
Definition upside_down_ori_mat (upright_parent_ori_mat : mat3) : mat3 :=
  matmul3 (euler2rot PI 0 0) upright_parent_ori_mat.

(** Lines 779-780 *)
Definition upside_down_pose_mat
    (start_parent_pose : pose) (upright_parent_ori_mat : mat3) : mat4 :=
  add_z (set_pos (set_rot eye4 (upside_down_ori_mat upright_parent_ori_mat))
                 (position start_parent_pose))
        (15 / 100).

(** *** Trial recorder: the record of a trial (lines 869-893) *)
Definition save_dict (args : Args) (sc : Scene) (t : Trial) : aug_save_dict :=
  let pc_master := pc_master_dict args sc in
  Build_aug_save_dict
    (t_place_success t)
    (PC (obj_class (parent pc_master)) (obj_class (child pc_master)))
    (PC (t_parent_pcd t) (t_child_pcd t))
    (PC (t_final_parent_pcd t) (t_final_child_pcd t))
    (t_cam_intrinsics t) (t_cam_poses t)
    (PC (parent_id sc) (child_id sc))
    "sim"
    (PC (t_start_parent_pose t) (t_start_child_pose t))
    (PC (t_final_parent_pose t) (t_final_child_pose t))
    (PC (mesh_file (parent pc_master)) (mesh_file (child pc_master)))
    (PC (mesh_file_dec (parent pc_master)) (mesh_file_dec (child pc_master)))
    (t_part_pose_dict t).

Section Pipeline.
Context (E : Collaborators).

(** [time.sleep(dt)]: the engine moves the bodies unless it waits for
    explicit steps. *)
Definition time_sleep (s : Sim) : Sim :=
  if step_sim s then s
  else MkSim (physics E s) (step_sim s) (constraints s) (next_cid s)
             (collision_off s).

(** *** Point-cloud fusion (lines 580-621) *)

(** Modelled from the spec: [util.crop_pcd] is defined in the [util] module,
    outside this script; spec 4.2 (1): "crop/clip points to a configured
    spatial bound". *)
Definition crop_pcd (raw_pts : cloud) : cloud :=
  filter (fun p => crop_bound E p = true) raw_pts.

(** [pts_raw[np.where(flat_seg == obj_id)[0], :]] (lines 596, 600) *)
Definition obj_pts (cam : CamObs) (obj_id : Z) : cloud :=
  map snd (filter (fun sp => sp.1 = obj_id) (zip (flat_seg cam) (pts_raw cam))).

(** [pc_obs_info['pcd_pts'][pc]] once the camera loop is over (line 602). *)
Definition pc_obs_info_pcd_pts (cams : list CamObs) (obj_id : Z) : list cloud :=
  map (fun cam => crop_pcd (obj_pts cam obj_id)) cams.

(** *** Placement composer (lines 690-713) *)

Definition placement_composer (s : Sim) (pc_master : pc ObjInfo)
    (start_parent_pose start_child_pose : pose)
    (upright_parent_ori_mat : mat3) (relative_trans : mat4) : result Placement :=
  let parent_obj_id := pb_obj_id (parent pc_master) in
  let child_obj_id := pb_obj_id (child pc_master) in
  let start_parent_pose_mat := matrix_from_pose start_parent_pose in
  let start_child_pose_mat := matrix_from_pose start_child_pose in
  (* 690 *)
  let final_child_pose_mat := matmul relative_trans start_child_pose_mat in
  (* 693, 695 *)
  let s := set_step_sim (time_sleep s) true in
  (* 696-707 *)
  '(s, final_child_pose_mat) ←
    (if decide (load_pose_type (parent pc_master) = "any_pose") then
       relative_upright_pose_mat ←
         relative_upright_pose_mat start_parent_pose_mat upright_parent_ori_mat;
       let upright_parent_pos := position start_parent_pose in
       let upright_parent_ori := upright_parent_ori_mat in
       s ← reset_body s parent_obj_id upright_parent_pos upright_parent_ori;
       mret (s, matmul relative_upright_pose_mat final_child_pose_mat)
     else mret (s, final_child_pose_mat));
  (* 709-713 *)
  final_parent_pose ← get_body_state s parent_obj_id;
  let final_child_pose := pose_from_matrix final_child_pose_mat in
  s ← reset_body s child_obj_id (position final_child_pose)
                 (orientation final_child_pose);
  mret (Build_Placement s final_child_pose_mat final_parent_pose final_child_pose).

(** Lines 714-730: the constraints are released, the child no longer
    collides with the table, and the engine runs for the evaluation. *)
Definition settle_for_evaluation (pc_master : pc ObjInfo) (sc : Scene) (s : Sim) : Sim :=
  (* 714-717 *)
  let s :=
    if decide (obj_class (parent pc_master) ∈ ["syn_rack_easy"; "syn_rack_med"]%string)
    then s else safeRemoveConstraint s (o_cid (parent pc_master)) in
  let s :=
    if decide (obj_class (child pc_master) ∈ ["syn_rack_easy"; "syn_rack_med"]%string)
    then s else safeRemoveConstraint s (o_cid (child pc_master)) in
  (* 723-730 *)
  let s := safeCollisionFilterPair_off s (pb_obj_id (child pc_master)) (table_id sc) in
  let s := time_sleep s in
  time_sleep (set_step_sim s false).

(** *** Outcome evaluator, first pass (lines 732-749) *)

Definition first_evaluation (args : Args) (s : Sim) (pc_master : pc ObjInfo)
    : result (list (string * bool) * list Contact) :=
  let success_crit_dict : list (string * bool) := [] in
  let obj_surf_contacts :=
    getContactPoints E s (pb_obj_id (child pc_master)) (pb_obj_id (parent pc_master)) in
  let touching_surf := touching obj_surf_contacts in
  let success_crit_dict := dict_set success_crit_dict "touching_surf" touching_surf in
  if decide (parent_class args = "box_container" /\ child_class args = "bottle") then
    bottle_final_pose ← get_body_state s (pb_obj_id (child pc_master));
    mret (dict_set success_crit_dict "bottle_upright"
                   (bottle_upright args bottle_final_pose),
          obj_surf_contacts)
  else mret (success_crit_dict, obj_surf_contacts).

(** *** Stability stress test (lines 767-810) *)

Definition stress_test (s : Sim) (pc_master : pc ObjInfo)
    (start_parent_pose start_child_pose : pose) (upright_parent_ori_mat : mat3)
    (final_child_pose_mat : mat4) : result Stress :=
  let parent_obj_id := pb_obj_id (parent pc_master) in
  let child_obj_id := pb_obj_id (child pc_master) in
  let start_parent_pose_mat := matrix_from_pose start_parent_pose in
  (* 767-771 *)
  let s := set_step_sim s true in
  let s := safeRemoveConstraint s (o_cid (parent pc_master)) in
  let s := safeRemoveConstraint s (o_cid (child pc_master)) in
  (* 774-775 *)
  s ← reset_body s parent_obj_id (position start_parent_pose)
                 (orientation start_parent_pose);
  s ← reset_body s child_obj_id (position start_child_pose)
                 (orientation start_child_pose);
  (* 778-781 *)
  let upside_down_pose_mat :=
    upside_down_pose_mat start_parent_pose upright_parent_ori_mat in
  let parent_upside_down_pose_list := pose_from_matrix upside_down_pose_mat in
  (* 784-785 *)
  s ← reset_body s parent_obj_id (position parent_upside_down_pose_list)
                 (orientation parent_upside_down_pose_list);
  let s :=
    (constraint_obj_world s parent_obj_id (position parent_upside_down_pose_list)
                          (orientation parent_upside_down_pose_list)).1 in
  (* 788-800 *)
  final_child_pose_parent ←
    final_child_pose_parent (convert_reference_frame E)
      final_child_pose_mat start_parent_pose_mat;
  final_child_pose_upside_down ←
    final_child_pose_upside_down (convert_reference_frame E)
      final_child_pose_parent upside_down_pose_mat;
  (* 803 *)
  s ← reset_body s child_obj_id (position final_child_pose_upside_down)
                 (orientation final_child_pose_upside_down);
  (* 806-807 *)
  let s := time_sleep (set_step_sim s false) in
  (* 810 *)
  let ud_obj_surf_contacts := getContactPoints E s parent_obj_id child_obj_id in
  mret (Build_Stress s upside_down_pose_mat final_child_pose_parent
                     final_child_pose_upside_down ud_obj_surf_contacts).

(** *** One trial (lines 561-907) *)

Definition main_iteration (args : Args) (sc : Scene) (iteration : Z) (w : World)
    : result (World * Trial) :=
  let pc_master := pc_master_dict args sc in
  let parent_obj_id := pb_obj_id (parent pc_master) in
  let child_obj_id := pb_obj_id (child pc_master) in
  let s := sim w in
  (* 580-610 *)
  let cams := cams_observe E s in
  let cam_intrinsics := map cam_int_mat cams in
  let cam_poses := map cam_ext_mat cams in
  (* 612-621 *)
  parent_pcd ← target_obj_pcd_obs (pc_obs_info_pcd_pts cams parent_obj_id);
  child_pcd ← target_obj_pcd_obs (pc_obs_info_pcd_pts cams child_obj_id);
  (* 623-631 *)
  start_child_pose ← get_body_state s child_obj_id;
  start_parent_pose ← get_body_state s parent_obj_id;
  upright_orientation ←
    of_option KeyError
      (dict_get upright_orientation_dict (obj_class (parent pc_master)));
  let upright_parent_ori_mat := upright_orientation in
  (* 641 *)
  '(relative_trans, part_pose_dict) ←
    infer_relation_task E parent_pcd child_pcd
      (mesh_file (parent pc_master)) (mesh_file (child pc_master))
      start_parent_pose start_child_pose
      (mesh_scale (parent pc_master)) (mesh_scale (child pc_master));
  (* 690-713 *)
  pl ← placement_composer s pc_master start_parent_pose start_child_pose
                          upright_parent_ori_mat relative_trans;
  (* 714-730 *)
  let s := settle_for_evaluation pc_master sc (pl_sim pl) in
  (* 719-720 *)
  let final_parent_pcd := parent_pcd in
  let final_child_pcd := transform_pcd child_pcd relative_trans in
  (* 732-749 *)
  '(success_crit_dict, obj_surf_contacts) ← first_evaluation args s pc_master;
  (* 767-810 *)
  st ← stress_test s pc_master start_parent_pose start_child_pose
                   upright_parent_ori_mat (pl_final_child_pose_mat pl);
  (* 811-812 *)
  let ud_touching_surf := touching (st_ud_obj_surf_contacts st) in
  let success_crit_dict :=
    dict_set success_crit_dict "fell_off_upside_down" (negb ud_touching_surf) in
  (* 816-820 *)
  let place_success := np_all (dict_values success_crit_dict) in
  let place_success_list := place_success_list w ++ [place_success] in
  let t :=
    Build_Trial cam_intrinsics cam_poses parent_pcd child_pcd
      start_parent_pose start_child_pose relative_trans part_pose_dict
      (pl_final_child_pose_mat pl) (pl_final_parent_pose pl)
      (pl_final_child_pose pl) final_parent_pcd final_child_pcd
      obj_surf_contacts (st_upside_down_pose_mat st)
      (st_final_child_pose_parent st) (st_final_child_pose_upside_down st)
      (st_ud_obj_surf_contacts st) success_crit_dict place_success in
  (* 866-895 *)
  let demo_aug_dir :=
    if place_success then demo_aug_dir w ++ [(iteration, save_dict args sc t)]
    else demo_aug_dir w in
  (* 897-903 *)
  let s := time_sleep (st_sim st) in
  let s := remove_body (remove_body s parent_obj_id) child_obj_id in
  mret (MkWorld s place_success_list demo_aug_dir, t).

(** *** The trial loop (line 356) *)

(** The trials [its], in order; an exception ends the run. *)
Fixpoint trials (args : Args) (its : list Z) (w : World) : result World :=
  match its with
  | [] => Ok w
  | iteration :: its =>
      let '(sc, s) := load_objects E iteration (sim w) in
      '(w, _) ←
        main_iteration args sc iteration
          (MkWorld s (place_success_list w) (demo_aug_dir w));
      trials args its w
  end.

(** [for iteration in range(args.start_iteration, args.num_iterations)] *)
Definition main_loop (args : Args) (w : World) : result World :=
  trials args
    (seqZ (start_iteration args) (num_iterations args - start_iteration args)) w.

End Pipeline.

(** ** The words of spec 4.2, to compare the fusion with

    The centroid of a cloud is the mean of its points, coordinate by
    coordinate; the distance is the Euclidean one. *)

Definition Rsum (l : list R) : R := foldr Rplus 0 l.

Definition centroid (c : cloud) : vec3 :=
  let n := INR (length c) in
  (Rsum (map (fun p : vec3 => p.1.1) c) / n,
   Rsum (map (fun p : vec3 => p.1.2) c) / n,
   Rsum (map (fun p : vec3 => p.2) c) / n).

Definition euclidean_distance (p q : vec3) : R :=
  sqrt ((p.1.1 - q.1.1) * (p.1.1 - q.1.1)
        + (p.1.2 - q.1.2) * (p.1.2 - q.1.2)
        + (p.2 - q.2) * (p.2 - q.2)).

(** ** Conditions on the collaborators under which a trial runs to its end *)

(** The engine neither loses nor forgets a body. *)
Definition physics_keeps_bodies (E : Collaborators) : Prop :=
  forall s obj_id, has_body s obj_id -> is_Some (physics E s !! obj_id).

(** The relation proposer returns. *)
Definition proposer_returns (E : Collaborators) : Prop :=
  forall ppcd cpcd pf cf pp cp ps cs,
    exists r, infer_relation_task E ppcd cpcd pf cf pp cp ps cs = Ok r.

(** The frame conversion returns. *)
Definition conversion_returns (E : Collaborators) : Prop :=
  forall a b c, exists p, convert_reference_frame E a b c = Ok p.

(** ** Concrete scenes *)

(** The helper of spec 3 as a collaborator. *)
Definition spec3_helper : pose -> pose -> pose -> result pose :=
  fun pose_source pose_frame_target pose_frame_source =>
    Ok (convert_reference_frame_spec pose_source pose_frame_target pose_frame_source).


(** A rack standing upright one unit above the origin, the child's final pose
    at the origin, and the upside-down pose lines 778-780 give that rack. *)
Definition cx1_start_parent_pose : pose := Pose (0, 0, 1) eye3.
Definition cx1_final_child_pose_mat : mat4 := eye4.
Definition cx1_upside_down_pose_mat : mat4 :=
  upside_down_pose_mat cx1_start_parent_pose eye3.

(** Two cameras, one point each, both at distance 0.2 of their mean. *)
Definition cx4_obj_pcd_pts : list cloud := [[(2 / 10, 0, 0)]; [(- (2 / 10), 0, 0)]].

(** A rack (body 1) at the origin and a mug (body 2) a little above it; one
    camera with one pixel on each; a proposer that answers the identity; an
    engine that leaves the bodies where they are and reports a contact until
    the parent is pinned. *)
Definition demo_contact : Contact :=
  Build_Contact 2 1 (-1) (-1) (0, 0, 1 / 10) (0, 0, 1 / 10) (0, 0, 1) 0 0.
Definition demo_cam : CamObs :=
  Build_CamObs eye3 eye4 [(0, 0, 0); (0, 0, 1 / 10)] [1; 2]%Z.
Definition demo_scene : Scene :=
  Build_Scene "rack_0" "mug_0" 0
    (PC (Build_LoadedObj "rack_0.obj" "rack_0_dec.obj" (1, 1, 1) 1 None)
        (Build_LoadedObj "mug_0.obj" "mug_0_dec.obj" (3 / 10, 3 / 10, 3 / 10) 2 None)).
Definition demo_bodies : gmap Z pose :=
  <[1%Z := unit_pose]> (<[2%Z := Pose (0, 0, 1 / 10) eye3]> ∅).
Definition demo_sim : Sim := MkSim demo_bodies false ∅ 0 [].
Definition demo_world : World := MkWorld demo_sim [] [].
Definition demo_collaborators : Collaborators := {|
  load_objects := fun _ s => (demo_scene, s);
  cams_observe := fun _ => [demo_cam];
  physics := body_state;
  getContactPoints := fun s _ _ => if (next_cid s =? 0)%Z then [demo_contact] else [];
  infer_relation_task := fun _ _ _ _ _ _ _ _ => Ok (eye4, []);
  crop_bound := fun _ => true;
  convert_reference_frame := spec3_helper |}.
Definition demo_args : Args :=
  Build_Args "rack" "mug" "demo_pose" "demo_pose" default_upright_ori_diff_thresh 0 1.
Definition any_pose_args : Args :=
  Build_Args "rack" "mug" "any_pose" "any_pose" default_upright_ori_diff_thresh 0 1.

(** The same scene with the camera seeing the mug only. *)
Definition cx5_cam : CamObs := Build_CamObs eye3 eye4 [(0, 0, 1 / 10)] [2]%Z.
Definition cx5_collaborators : Collaborators := {|
  load_objects := fun _ s => (demo_scene, s);
  cams_observe := fun _ => [cx5_cam];
  physics := body_state;
  getContactPoints := fun s _ _ => if (next_cid s =? 0)%Z then [demo_contact] else [];
  infer_relation_task := fun _ _ _ _ _ _ _ _ => Ok (eye4, []);
  crop_bound := fun _ => true;
  convert_reference_frame := spec3_helper |}.

(** A parent lying on its side (a quarter turn about x), for the upright
    correction. *)
Definition tilted_parent_pose : pose := Pose (0, 0, 0) (Mat3 1 0 0 0 0 (-1) 0 1 0).

(** The demo scene again, in a simulator left in another state by earlier
    trials. *)
Definition demo_world_later : World :=
  MkWorld (MkSim demo_bodies true ∅ 5 [(2, 0)%Z]) [true; false] [].

(** The words of spec 4.4, steps 2 and 3: both conversions have the identity
    as source frame; the first has the parent's start pose as target frame,
    the second the upside-down pose. *)
Definition child_upside_down_spec44
    (final_child_pose start_parent_pose upside_down_pose : pose) : pose :=
  let child_in_parent :=
    convert_reference_frame_spec final_child_pose start_parent_pose unit_pose in
  convert_reference_frame_spec child_in_parent upside_down_pose unit_pose.

(** * More of the script

    The camera loop's table points, the setup of a trial, the running
    success rate, and further concrete scenes. *)

(** Three views of a small object: no two points are 0.2 apart. *)
Definition small_obj_pcd_pts : list cloud :=
  [[(0, 0, 0); (1 / 10, 0, 0)]; [(0, 1 / 10, 0)]].

(** ** The table's points (line 604)

    [a[::step]] keeps the elements at the indices [0, step, 2*step, ...];
    a zero step is refused with a [ValueError]. *)

(** The elements of [a] after the first [wait], then every [S gap]-th. *)
Fixpoint every {A} (gap wait : nat) (a : list A) : list A :=
  match a with
  | [] => []
  | x :: a =>
      match wait with
      | O => x :: every gap gap a
      | S wait => every gap wait a
      end
  end.

Definition np_step_slice {A} (a : list A) (step : nat) : result (list A) :=
  match step with
  | O => Raise ValueError
  | S gap => Ok (every gap 0 a)
  end.

(** [pts_raw[table_inds[0], :][::int(table_inds[0].shape[0]/500)]]: the
    quotient of a count by 500, truncated, is the integer quotient. *)
Definition table_pts (cam : CamObs) (table_id : Z) : result cloud :=
  let table := map snd (filter (fun sp => sp.1 = table_id)
                               (zip (flat_seg cam) (pts_raw cam))) in
  np_step_slice table (length table / 500)%nat.

(** ** Trial setup: scales and start poses (lines 266-296, 391-510) *)

(** [pc_master_dict[pc]['scale_hl']] (lines 279-296): high and low, set for
    five classes. *)
Definition scale_hl (cls : string) : option (R * R) :=
  if decide (cls = "mug"%string) then Some (45 / 100, 25 / 100)
  else if decide (cls = "bowl"%string) then Some (4 / 10, 2 / 10)
  else if decide (cls = "bottle"%string) then Some (45 / 100, 15 / 100)
  else if decide (cls = "syn_rack_easy"%string) then Some (45 / 100, 25 / 100)
  else if decide (cls = "box_container"%string) then Some (12 / 10, 8 / 10)
  else None.

(** [pc_master_dict[pc]['scale_default']] (lines 279-296) *)
Definition scale_default (cls : string) : option R :=
  if decide (cls = "mug"%string) then Some (3 / 10)
  else if decide (cls = "bowl"%string) then Some (3 / 10)
  else if decide (cls = "bottle"%string) then Some (3 / 10)
  else if decide (cls = "syn_rack_easy"%string) then Some (3 / 10)
  else if decide (cls = "box_container"%string) then Some 1
  else None.

(** [np.max] and [np.min(...[:-1])] of the extents of a bounding box. *)
Definition np_max3 (v : vec3) : R := Rmax (Rmax v.1.1 v.1.2) v.2.
Definition np_min2 (v : vec3) : R := Rmin v.1.1 v.1.2.

(** Lines 391-434: the scale that makes the container large enough for the
    bottle, from the extents of their flattened bounding boxes at the default
    scales and one draw [u] of [np.random.random()]; [None] when the parent
    is left at its default scale. *)
Definition new_parent_scale (parent_class child_class : string)
    (container_extents bottle_extents : vec3) (u : R) : option R :=
  if decide (parent_class = "box_container"%string /\ child_class = "bottle"%string) then
    if decide (75 / 100 * np_min2 container_extents < np_max3 bottle_extents) then
      Some (np_max3 bottle_extents * (u * (2 - 15 / 10) + 15 / 10)
            / np_min2 container_extents)
    else None
  else None.

(** [np.random.randint(5)] *)
Inductive randint5 := Sample0 | Sample1 | Sample2 | Sample3 | Sample4.

(** The draws of lines 459-462: [np.random.random()] three times, then
    [np.random.randint(5)]. *)
Record ScaleDraws := { u1 : R; u2 : R; u3 : R; sample : randint5 }.

(** Line 456 *)
Definition rand_val (u high low : R) : R := u * (high - low) + low.

(** Lines 446-476: the mesh scale of the parent ([is_parent]) or the child. *)
Definition sample_mesh_scale (cls : string) (is_parent : bool)
    (new_parent_scale : option R) (rand_mesh_scale : bool) (d : ScaleDraws)
    : result vec3 :=
  '(scale_high, scale_low) ← of_option KeyError (scale_hl cls);
  scale_default ←
    (if is_parent then
       match new_parent_scale with
       | None => of_option KeyError (scale_default cls)
       | Some n => mret n
       end
     else of_option KeyError (scale_default cls));
  if rand_mesh_scale then
    let val1 := rand_val (u1 d) scale_high scale_low in
    let val2 := rand_val (u2 d) scale_high scale_low in
    let val3 := rand_val (u3 d) scale_high scale_low in
    mret (match sample d with
          | Sample0 => (val1, val1, val1)
          | Sample1 => (val1, val1, val2)
          | Sample2 => (val1, val2, val2)
          | Sample3 => (val1, val2, val1)
          | Sample4 => (val1, val2, val3)
          end)
  else mret (scale_default, scale_default, scale_default).

(** [pc_master_dict[pc]['xhl']] and [['yhl']] (lines 266-274): high and low. *)
Definition xhl (is_parent : bool) : R * R := (4 / 10, 3 / 10).
Definition yhl (is_parent : bool) : R * R :=
  if is_parent then (25 / 100, 2 / 10) else (- (2 / 10), - (25 / 100)).

(** The draws of lines 485-508: [np.random.rand(3)] (the third is not drawn
    for a bowl or a bottle) and [np.random.random()] twice. *)
Record PoseDraws := { rpy : vec3; ux : R; uy : R }.

(** Lines 479-510: the pose an object is loaded at.  [rand_yaw] stands for
    lines 498-500 and 508-510 ([util.rand_body_yaw_transform] and
    [util.transform_pose]); no entry ['demo_start_poses'] is ever set, so
    line 503 raises. *)
Definition start_pose (cls lpt : string) (is_parent : bool) (table_z : R)
    (d : PoseDraws) (rand_yaw : pose -> pose) : result pose :=
  upright_orientation ← of_option KeyError (dict_get upright_orientation_dict cls);
  let '(x_high, x_low) := xhl is_parent in
  let '(y_high, y_low) := yhl is_parent in
  let pos := (ux d * (x_high - x_low) + x_low, uy d * (y_high - y_low) + y_low, table_z) in
  if decide (lpt = "any_pose"%string) then
    let '(r0, r1, r2) := rpy d in
    let ori :=
      if decide (cls ∈ ["bowl"; "bottle"]%string) then
        euler2quat (r0 * (2 * PI / 3) - PI / 3) (r1 * (2 * PI / 3) - PI / 3) 0
      else
        euler2quat (r0 * (2 * PI / 3) - PI / 3) (r1 * (2 * PI / 3) - PI / 3)
                   (r2 * (2 * PI / 3) - PI / 3) in
    mret (rand_yaw (Pose pos ori))
  else if decide (lpt = "demo_pose"%string) then Raise KeyError
  else mret (rand_yaw (Pose pos upright_orientation)).

(** Lines 442-510 for one object: its mesh scale, then its start pose. *)
Definition object_setup (cls lpt : string) (is_parent : bool)
    (new_parent_scale : option R) (rand_mesh_scale : bool) (table_z : R)
    (sd : ScaleDraws) (pd : PoseDraws) (rand_yaw : pose -> pose)
    : result (vec3 * pose) :=
  mesh_scale ← sample_mesh_scale cls is_parent new_parent_scale rand_mesh_scale sd;
  pose ← start_pose cls lpt is_parent table_z pd rand_yaw;
  mret (mesh_scale, pose).

(** ** The running success rate (lines 823 and 859)

    [sum(place_success_list) / float(len(place_success_list))]; [None]
    stands for the [ZeroDivisionError] of an empty list. *)
Definition py_sum (l : list bool) : R :=
  foldr (fun (b : bool) acc => (if b then 1 else 0) + acc) 0 l.
Definition current_success_rate (place_success_list : list bool) : option R :=
  if decide (length place_success_list = 0%nat) then None
  else Some (py_sum place_success_list / INR (length place_success_list)).

(** A synthetic rack (body 1, pinned where it is loaded by constraint 0) and
    a mug (body 2), both loaded upright. *)
Definition easy_scene : Scene :=
  Build_Scene "syn_rack_easy_0" "mug_0" 0
    (PC (Build_LoadedObj "syn_rack_easy_0.obj" "syn_rack_easy_0_dec.obj"
           (3 / 10, 3 / 10, 3 / 10) 1 (Some 0%Z))
        (Build_LoadedObj "mug_0.obj" "mug_0_dec.obj" (3 / 10, 3 / 10, 3 / 10) 2 None)).
Definition easy_sim : Sim :=
  MkSim demo_bodies false (<[0%Z := (1%Z, unit_pose)]> ∅) 1 [].
Definition easy_world : World := MkWorld easy_sim [] [].
Definition easy_args : Args :=
  Build_Args "syn_rack_easy" "mug" "random_upright" "random_upright"
             default_upright_ori_diff_thresh 0 1.

(** The same collaborators, loading the synthetic rack and the mug afresh
    for every trial. *)
Definition easy_collaborators : Collaborators := {|
  load_objects := fun _ _ => (easy_scene, easy_sim);
  cams_observe := fun _ => [demo_cam];
  physics := body_state;
  getContactPoints := fun s _ _ => if (next_cid s =? 1)%Z then [demo_contact] else [];
  infer_relation_task := fun _ _ _ _ _ _ _ _ => Ok (eye4, []);
  crop_bound := fun _ => true;
  convert_reference_frame := spec3_helper |}.
Definition easy_loop_args : Args :=
  Build_Args "syn_rack_easy" "mug" "random_upright" "random_upright"
             default_upright_ori_diff_thresh 3 5.

Definition demo_pose_draws : PoseDraws := Build_PoseDraws (1 / 2, 1 / 2, 1 / 2) (1 / 2) 0.

(** * Proofs *)

(** ** Linear algebra *)

Ltac mat_unfold :=
  cbv [matmul matmul3 transpose3 invert det4 det3 cofactor det3f
    eye4 eye3 build build3 sum4 sum3 get get3 skip sign
    set_rot set_pos add_z rot_of pos_of pose_mat
    m00 m01 m02 m03 m10 m11 m12 m13 m20 m21 m22 m23 m30 m31 m32 m33
    r00 r01 r02 r10 r11 r12 r20 r21 r22 position orientation
    matrix_from_pose pose_from_matrix].
Ltac mat_unfold_in H :=
  cbv [matmul matmul3 transpose3 invert det4 det3 cofactor det3f
    eye4 eye3 build build3 sum4 sum3 get get3 skip sign
    set_rot set_pos add_z rot_of pos_of pose_mat
    m00 m01 m02 m03 m10 m11 m12 m13 m20 m21 m22 m23 m30 m31 m32 m33
    r00 r01 r02 r10 r11 r12 r20 r21 r22 position orientation
    matrix_from_pose pose_from_matrix] in H.

Lemma get_build f i j : get (build f) i j = f i j.
Proof. destruct i, j; reflexivity. Qed.

Lemma mat4_ext A B : (forall i j, get A i j = get B i j) -> A = B.
Proof.
  intros H. destruct A, B.
  pose proof (H X0 X0); pose proof (H X0 X1); pose proof (H X0 X2); pose proof (H X0 X3).
  pose proof (H X1 X0); pose proof (H X1 X1); pose proof (H X1 X2); pose proof (H X1 X3).
  pose proof (H X2 X0); pose proof (H X2 X1); pose proof (H X2 X2); pose proof (H X2 X3).
  pose proof (H X3 X0); pose proof (H X3 X1); pose proof (H X3 X2); pose proof (H X3 X3).
  simpl in *. f_equal; assumption.
Qed.

Lemma matmul_assoc A B C : matmul (matmul A B) C = matmul A (matmul B C).
Proof. destruct A, B, C; mat_unfold; f_equal; ring. Qed.

Lemma matmul_eye_l A : matmul eye4 A = A.
Proof. destruct A; mat_unfold; f_equal; ring. Qed.

Lemma matmul_eye_r A : matmul A eye4 = A.
Proof. destruct A; mat_unfold; f_equal; ring. Qed.

Lemma cofactor_rows M i j :
  sum4 (fun k => get M i k * cofactor M j k) = get eye4 i j * det4 M.
Proof. destruct M, i, j; mat_unfold; ring. Qed.

Lemma cofactor_cols M i j :
  sum4 (fun k => cofactor M k i * get M k j) = get eye4 i j * det4 M.
Proof. destruct M, i, j; mat_unfold; ring. Qed.

Lemma matmul_invert_r M : det4 M <> 0 -> matmul M (invert M) = eye4.
Proof.
  intros H. apply mat4_ext; intros i j.
  unfold matmul, invert. rewrite !get_build. unfold sum4. rewrite !get_build.
  pose proof (cofactor_rows M i j) as C. unfold sum4 in C.
  apply (Rmult_eq_reg_r (det4 M)); [|exact H].
  rewrite <- C. field. exact H.
Qed.

Lemma matmul_invert_l M : det4 M <> 0 -> matmul (invert M) M = eye4.
Proof.
  intros H. apply mat4_ext; intros i j.
  unfold matmul, invert. rewrite !get_build. unfold sum4. rewrite !get_build.
  pose proof (cofactor_cols M i j) as C. unfold sum4 in C.
  apply (Rmult_eq_reg_r (det4 M)); [|exact H].
  rewrite <- C. field. exact H.
Qed.

Lemma invert_unique A B : det4 A <> 0 -> matmul A B = eye4 -> invert A = B.
Proof.
  intros Hd HAB.
  rewrite <- (matmul_eye_r (invert A)), <- HAB, <- matmul_assoc.
  rewrite matmul_invert_l by assumption. apply matmul_eye_l.
Qed.

Lemma np_linalg_inv_ok M : det4 M <> 0 -> np_linalg_inv M = Ok (invert M).
Proof. intros H. unfold np_linalg_inv. destruct (decide (det4 M = 0)); [contradiction|reflexivity]. Qed.

Lemma det4_homogeneous M : homogeneous M -> det4 M = det3 (rot_of M).
Proof.
  destruct M; intros (H0 & H1 & H2 & H3); simpl in *; subst.
  mat_unfold. ring.
Qed.

Lemma rigid_det4 M : rigid M -> det4 M <> 0.
Proof.
  intros [Hh [_ Hd]]. rewrite det4_homogeneous by assumption. rewrite Hd. lra.
Qed.

Lemma homogeneous_matmul A B : homogeneous A -> homogeneous B -> homogeneous (matmul A B).
Proof.
  destruct A, B; intros (?&?&?&?) (?&?&?&?); simpl in *; subst.
  unfold homogeneous; mat_unfold. repeat split; ring.
Qed.

Lemma homogeneous_invert A : det4 A <> 0 -> homogeneous A -> homogeneous (invert A).
Proof.
  intros Hd (H0 & H1 & H2 & H3).
  destruct A; simpl in *; subst.
  unfold homogeneous; mat_unfold; mat_unfold_in Hd.
  repeat split; field; (intros E; apply Hd; etransitivity; [|exact E]; ring).
Qed.


Lemma det4_eye4 : det4 eye4 = 1.
Proof. mat_unfold. ring. Qed.

Lemma invert_eye4 : invert eye4 = eye4.
Proof. apply invert_unique; [rewrite det4_eye4; lra | apply matmul_eye_l]. Qed.

Lemma rotation_eye3 : rotation eye3.
Proof. split; mat_unfold; [f_equal; ring | ring]. Qed.

(** ** Poses and their matrices *)

Lemma homogeneous_matrix_from_pose p : homogeneous (matrix_from_pose p).
Proof. destruct p as [[[x y] z] r]. unfold homogeneous; simpl. repeat split; reflexivity. Qed.

Lemma rot_of_matrix_from_pose p : rot_of (matrix_from_pose p) = orientation p.
Proof. destruct p as [[[x y] z] []]. reflexivity. Qed.

Lemma pos_of_matrix_from_pose p : pos_of (matrix_from_pose p) = position p.
Proof. destruct p as [[[x y] z] []]. reflexivity. Qed.

Lemma pose_from_matrix_from_pose p : pose_from_matrix (matrix_from_pose p) = p.
Proof. destruct p as [[[x y] z] []]. reflexivity. Qed.

Lemma matrix_from_pose_from_matrix M :
  homogeneous M -> matrix_from_pose (pose_from_matrix M) = M.
Proof. destruct M; intros (?&?&?&?); simpl in *; subst. reflexivity. Qed.

Lemma rigid_matrix_from_pose p : valid_pose p -> rigid (matrix_from_pose p).
Proof.
  intros H. split; [apply homogeneous_matrix_from_pose|].
  rewrite rot_of_matrix_from_pose. exact H.
Qed.

Lemma matrix_from_unit_pose : matrix_from_pose unit_pose = eye4.
Proof. reflexivity. Qed.

(** ** Frame algebra *)

Lemma compose_matrix a b :
  matrix_from_pose (compose a b) = matmul (matrix_from_pose a) (matrix_from_pose b).
Proof.
  unfold compose. apply matrix_from_pose_from_matrix.
  apply homogeneous_matmul; apply homogeneous_matrix_from_pose.
Qed.

Lemma invert_pose_matrix a :
  det4 (matrix_from_pose a) <> 0 ->
  matrix_from_pose (invert_pose a) = invert (matrix_from_pose a).
Proof.
  intros H. unfold invert_pose. apply matrix_from_pose_from_matrix.
  apply homogeneous_invert; [exact H | apply homogeneous_matrix_from_pose].
Qed.

Lemma invert_unit_pose : invert_pose unit_pose = unit_pose.
Proof. unfold invert_pose. rewrite matrix_from_unit_pose, invert_eye4. reflexivity. Qed.

Lemma compose_unit_l a : compose unit_pose a = a.
Proof.
  unfold compose. rewrite matrix_from_unit_pose, matmul_eye_l.
  apply pose_from_matrix_from_pose.
Qed.



(** ** Euler angles *)

Lemma euler2rot_roll a : euler2rot a 0 0 = rot_x a.
Proof.
  unfold euler2rot, rot_z, rot_y, rot_x. rewrite cos_0, sin_0.
  mat_unfold. f_equal; ring.
Qed.

Lemma rot_x_PI : rot_x PI = Mat3 1 0 0 0 (-1) 0 0 0 (-1).
Proof. unfold rot_x. rewrite cos_PI, sin_PI. f_equal; ring. Qed.

Lemma rot_x_0 : rot_x 0 = eye3.
Proof. unfold rot_x. rewrite cos_0, sin_0. mat_unfold. f_equal; ring. Qed.

Lemma rot_x_comm a b : matmul3 (rot_x a) (rot_x b) = matmul3 (rot_x b) (rot_x a).
Proof. unfold rot_x. mat_unfold. f_equal; ring. Qed.

Lemma rotation_rot_x a : rotation (rot_x a).
Proof.
  pose proof (sin2_cos2 a) as H. unfold Rsqr in H.
  unfold rot_x. split; mat_unfold; [f_equal; try ring; lra | lra].
Qed.

Lemma cx1_upside_down_pose_mat_eq :
  cx1_upside_down_pose_mat
  = Mat4 1 0 0 0
         0 (-1) 0 0
         0 0 (-1) (115 / 100)
         0 0 0 1.
Proof.
  unfold cx1_upside_down_pose_mat, upside_down_pose_mat, upside_down_ori_mat.
  rewrite euler2rot_roll, rot_x_PI. unfold cx1_start_parent_pose.
  mat_unfold. f_equal; lra.
Qed.



Lemma cx1_rigid_start_parent : rigid (matrix_from_pose cx1_start_parent_pose).
Proof. apply rigid_matrix_from_pose, rotation_eye3. Qed.

Lemma cx1_rigid_upside_down : rigid cx1_upside_down_pose_mat.
Proof.
  rewrite cx1_upside_down_pose_mat_eq. split.
  - unfold homogeneous; mat_unfold; repeat split; reflexivity.
  - split; mat_unfold; [f_equal; ring | ring].
Qed.



(** Steps 2 and 3 as spec 4.4 words them, with the helper of spec 3, give
    [UD o (Sp o Fc)]. *)
Lemma child_upside_down_spec44_eq Fc Sp UD :
  child_upside_down_spec44 Fc Sp UD = compose UD (compose Sp Fc).
Proof.
  unfold child_upside_down_spec44, convert_reference_frame_spec. cbn zeta.
  rewrite invert_unit_pose, !compose_unit_l. reflexivity.
Qed.

(** At the scene of the counterexample they miss the relation of C1 as
    well: seen from the upside-down parent the child is at height 1, seen
    from the parent at the start it is at height -1. *)
Lemma child_upside_down_spec44_relation_fails :
  matmul (invert cx1_upside_down_pose_mat)
    (matrix_from_pose
       (child_upside_down_spec44 (pose_from_matrix cx1_final_child_pose_mat)
          cx1_start_parent_pose (pose_from_matrix cx1_upside_down_pose_mat)))
  = pose_mat (0, 0, 1) eye3 /\
  matmul (invert (matrix_from_pose cx1_start_parent_pose)) cx1_final_child_pose_mat
  = pose_mat (0, 0, -1) eye3.
Proof.
  pose proof cx1_rigid_upside_down as RUD. pose proof cx1_rigid_start_parent as RSp.
  split.
  - rewrite child_upside_down_spec44_eq, !compose_matrix.
    rewrite (matrix_from_pose_from_matrix cx1_upside_down_pose_mat) by apply RUD.
    rewrite <- matmul_assoc, matmul_invert_l by (apply rigid_det4, RUD).
    rewrite matmul_eye_l. unfold cx1_start_parent_pose, cx1_final_child_pose_mat.
    mat_unfold. f_equal; lra.
  - replace (invert (matrix_from_pose cx1_start_parent_pose))
      with (pose_mat (0, 0, -1) eye3); [apply matmul_eye_r|].
    symmetry. apply invert_unique; [apply rigid_det4, RSp|].
    unfold cx1_start_parent_pose. mat_unfold. f_equal; lra.
Qed.

(** ** The simulator *)

Lemma reset_body_ok s obj_id pos ori :
  has_body s obj_id ->
  reset_body s obj_id pos ori
  = Ok (MkSim (<[obj_id := Pose pos ori]> (body_state s)) (step_sim s)
              (constraints s) (next_cid s) (collision_off s)).
Proof. intros [p Hp]. unfold reset_body. rewrite Hp. reflexivity. Qed.

Lemma reset_body_inv s obj_id pos ori s' :
  reset_body s obj_id pos ori = Ok s' ->
  has_body s obj_id /\
  s' = MkSim (<[obj_id := Pose pos ori]> (body_state s)) (step_sim s)
             (constraints s) (next_cid s) (collision_off s).
Proof.
  unfold reset_body, has_body. destruct (body_state s !! obj_id) eqn:Hb; [|discriminate].
  intros [= <-]. split; [eauto | reflexivity].
Qed.

Lemma get_body_state_ok s obj_id p :
  body_state s !! obj_id = Some p -> get_body_state s obj_id = Ok p.
Proof. intros H. unfold get_body_state. rewrite H. reflexivity. Qed.

Lemma has_body_insert (m : gmap Z pose) st c n co obj_id p j :
  has_body (MkSim m st c n co) j -> has_body (MkSim (<[obj_id := p]> m) st c n co) j.
Proof.
  unfold has_body; simpl. intros H.
  destruct (decide (obj_id = j)) as [->|Hne].
  - rewrite lookup_insert_eq. eauto.
  - rewrite lookup_insert_ne by assumption. exact H.
Qed.

(** ** Placement composer *)

Lemma upright_parent_pose_mat_pose Sp up :
  upright_parent_pose_mat (matrix_from_pose Sp) up
  = matrix_from_pose (Pose (position Sp) up).
Proof. destruct Sp as [[[x y] z] []], up. reflexivity. Qed.

(** C2.  With a parent loaded in any pose, the composer leaves the parent at
    [Up], the start position with the upright orientation, and the child at
    [U o (R o Sc)] with [U = Up o invert(Sp)]; seen from the parent the child
    is where it was before the correction:
    [invert(Up) o (U o R o Sc) = invert(Sp) o (R o Sc)]. *)
Theorem placement_composer_upright E s pc_master Sp Sc up Rel :
  load_pose_type (parent pc_master) = "any_pose"%string ->
  valid_pose Sp -> rotation up ->
  has_body (time_sleep E s) (pb_obj_id (parent pc_master)) ->
  has_body (time_sleep E s) (pb_obj_id (child pc_master)) ->
  let Up := upright_parent_pose_mat (matrix_from_pose Sp) up in
  let U := matmul Up (invert (matrix_from_pose Sp)) in
  exists pl,
    placement_composer E s pc_master Sp Sc up Rel = Ok pl /\
    pl_final_parent_pose pl = Pose (position Sp) up /\
    matrix_from_pose (pl_final_parent_pose pl) = Up /\
    pl_final_child_pose_mat pl = matmul U (matmul Rel (matrix_from_pose Sc)) /\
    pl_final_child_pose pl = pose_from_matrix (pl_final_child_pose_mat pl) /\
    body_state (pl_sim pl) !! pb_obj_id (child pc_master)
    = Some (pl_final_child_pose pl) /\
    (pb_obj_id (parent pc_master) <> pb_obj_id (child pc_master) ->
     body_state (pl_sim pl) !! pb_obj_id (parent pc_master)
     = Some (Pose (position Sp) up)) /\
    matmul (invert Up) (pl_final_child_pose_mat pl)
    = matmul (invert (matrix_from_pose Sp)) (matmul Rel (matrix_from_pose Sc)).
Proof.
  intros Hany HSp Hup Hp Hc Up U.
  assert (DSp : det4 (matrix_from_pose Sp) <> 0)
    by (apply rigid_det4, rigid_matrix_from_pose, HSp).
  assert (DUp : det4 Up <> 0).
  { unfold Up. rewrite upright_parent_pose_mat_pose.
    apply rigid_det4, rigid_matrix_from_pose. exact Hup. }
  unfold placement_composer.
  rewrite decide_True by assumption.
  unfold relative_upright_pose_mat. rewrite np_linalg_inv_ok by assumption.
  cbn [mbind result_bind mret result_ret].
  rewrite reset_body_ok by exact Hp.
  cbn [mbind result_bind mret result_ret].
  erewrite get_body_state_ok by (cbn [body_state]; apply lookup_insert_eq).
  cbn [mbind result_bind mret result_ret].
  rewrite reset_body_ok by (apply has_body_insert; exact Hc).
  eexists. split; [reflexivity|].
  cbn [pl_final_parent_pose pl_final_child_pose_mat pl_final_child_pose pl_sim
       body_state].
  split; [reflexivity|]. split; [symmetry; apply upright_parent_pose_mat_pose|].
  split; [reflexivity|]. split; [reflexivity|].
  split; [apply lookup_insert_eq|].
  split; [intros Hne; rewrite lookup_insert_ne by congruence; apply lookup_insert_eq|].
  fold Up. fold U. unfold U.
  rewrite (matmul_assoc Up), <- (matmul_assoc (invert Up)).
  rewrite matmul_invert_l by assumption. apply matmul_eye_l.
Qed.

(** ** Point-cloud fusion *)

Lemma filter_iff_elem_of {A} (P1 P2 : A -> Prop)
    `{!forall x, Decision (P1 x), !forall x, Decision (P2 x)} (l : list A) :
  (forall x, x ∈ l -> P1 x <-> P2 x) -> filter P1 l = filter P2 l.
Proof.
  induction l as [|a l IH]; intros Hiff; [reflexivity|].
  assert (Ha : P1 a <-> P2 a) by (apply Hiff; left).
  assert (Hl : filter P1 l = filter P2 l)
    by (apply IH; intros x Hx; apply Hiff; right; exact Hx).
  destruct (decide (P1 a)) as [Hp|Hp].
  - rewrite !filter_cons_True by tauto. rewrite Hl. reflexivity.
  - rewrite !filter_cons_False by tauto. exact Hl.
Qed.

Lemma foldr_vadd (c : cloud) :
  foldr vadd (0, 0, 0) c
  = (Rsum (map (fun p : vec3 => p.1.1) c),
     Rsum (map (fun p : vec3 => p.1.2) c),
     Rsum (map (fun p : vec3 => p.2) c)).
Proof.
  induction c as [|[[x y] z] c IH]; [reflexivity|].
  cbn [foldr map Rsum]. rewrite IH. reflexivity.
Qed.

Lemma np_mean_centroid (c : cloud) : np_mean c = centroid c.
Proof.
  unfold np_mean, centroid. rewrite foldr_vadd. unfold vscale, Rdiv.
  f_equal; [f_equal|]; apply Rmult_comm.
Qed.

Lemma norm_euclidean_distance p q :
  np_linalg_norm (vsub p q) = euclidean_distance p q.
Proof. destruct p as [[a b] c], q as [[x y] z]. reflexivity. Qed.

Lemma target_obj_pcd_obs_filter (obj_pcd_pts : list cloud) :
  obj_pcd_pts <> [] ->
  target_obj_pcd_obs obj_pcd_pts
  = Ok (filter (fun p => euclidean_distance p (centroid (concat obj_pcd_pts)) < 2 / 10)
               (concat obj_pcd_pts)).
Proof.
  intros Hne. unfold target_obj_pcd_obs, np_concatenate.
  destruct obj_pcd_pts as [|c0 cs]; [contradiction|].
  cbn [mbind result_bind mret result_ret]. f_equal.
  apply list_filter_iff. intros p.
  rewrite norm_euclidean_distance, np_mean_centroid. reflexivity.
Qed.


Lemma sqrt_two_tenths : sqrt (2 / 10 * (2 / 10)) = 2 / 10.
Proof. apply sqrt_square. lra. Qed.

Lemma cx4_centroid : centroid (concat cx4_obj_pcd_pts) = (0, 0, 0).
Proof.
  unfold cx4_obj_pcd_pts, centroid.
  cbn [concat app map length Rsum foldr fst snd INR].
  f_equal; [f_equal|]; lra.
Qed.

Lemma cx4_distance_1 : euclidean_distance (2 / 10, 0, 0) (0, 0, 0) = 2 / 10.
Proof.
  unfold euclidean_distance. cbn [fst snd].
  transitivity (sqrt (2 / 10 * (2 / 10))); [f_equal; ring | apply sqrt_two_tenths].
Qed.

Lemma cx4_distance_2 : euclidean_distance (- (2 / 10), 0, 0) (0, 0, 0) = 2 / 10.
Proof.
  unfold euclidean_distance. cbn [fst snd].
  transitivity (sqrt (2 / 10 * (2 / 10))); [f_equal; ring | apply sqrt_two_tenths].
Qed.

Lemma fusion_closed_radius_counterexample :
  cx4_obj_pcd_pts <> [] /\
  centroid (concat cx4_obj_pcd_pts) = (0, 0, 0) /\
  filter (fun p => euclidean_distance p (centroid (concat cx4_obj_pcd_pts)) <= 2 / 10)
         (concat cx4_obj_pcd_pts)
  = [(2 / 10, 0, 0); (- (2 / 10), 0, 0)] /\
  target_obj_pcd_obs cx4_obj_pcd_pts = Ok [] /\
  target_obj_pcd_obs cx4_obj_pcd_pts
  <> Ok (filter (fun p => euclidean_distance p (centroid (concat cx4_obj_pcd_pts))
                          <= 2 / 10)
                (concat cx4_obj_pcd_pts)).
Proof.
  assert (Hne : cx4_obj_pcd_pts <> []) by discriminate.
  assert (Hclosed :
    filter (fun p => euclidean_distance p (centroid (concat cx4_obj_pcd_pts)) <= 2 / 10)
           (concat cx4_obj_pcd_pts)
    = [(2 / 10, 0, 0); (- (2 / 10), 0, 0)]).
  { rewrite cx4_centroid. unfold cx4_obj_pcd_pts. cbn [concat app].
    rewrite filter_cons_True by (rewrite cx4_distance_1; lra).
    rewrite filter_cons_True by (rewrite cx4_distance_2; lra).
    reflexivity. }
  assert (Hopen : target_obj_pcd_obs cx4_obj_pcd_pts = Ok []).
  { rewrite target_obj_pcd_obs_filter by exact Hne.
    rewrite cx4_centroid. unfold cx4_obj_pcd_pts. cbn [concat app].
    rewrite filter_cons_False by (rewrite cx4_distance_1; lra).
    rewrite filter_cons_False by (rewrite cx4_distance_2; lra).
    reflexivity. }
  split; [exact Hne|]. split; [exact cx4_centroid|]. split; [exact Hclosed|].
  split; [exact Hopen|]. rewrite Hopen, Hclosed. discriminate.
Qed.

(** C4, as the code has it.  For at least one camera, the fusion
    concatenates the per-camera clouds, takes the centroid and keeps, in
    order and in one pass, exactly the points whose Euclidean distance to it
    is strictly less than 0.2; a point at distance 0.2 is dropped.  When every
    point is within 0.05 of the centroid or at distance 5 of it, the points
    within 0.05 are what is kept. *)
Theorem fusion_strict_radius (obj_pcd_pts : list cloud) :
  obj_pcd_pts <> [] ->
  let pts := concat obj_pcd_pts in
  let c := centroid pts in
  exists fused,
    target_obj_pcd_obs obj_pcd_pts = Ok fused /\
    fused = filter (fun p => euclidean_distance p c < 2 / 10) pts /\
    (forall p, p ∈ pts -> euclidean_distance p c = 2 / 10 -> p ∉ fused) /\
    ((forall p, p ∈ pts ->
        euclidean_distance p c <= 5 / 100 \/ euclidean_distance p c = 5) ->
     fused = filter (fun p => euclidean_distance p c <= 5 / 100) pts).
Proof.
  intros Hne pts c. eexists. split; [apply target_obj_pcd_obs_filter, Hne|].
  fold pts. fold c. split; [reflexivity|]. split.
  - intros p _ Hd Hin. apply list_elem_of_filter in Hin as [Hlt _]. lra.
  - intros Hall. apply filter_iff_elem_of. intros p Hp.
    destruct (Hall p Hp) as [H|H]; lra.
Qed.

Lemma fusion_strict_radius_witness :
  exists fused,
    target_obj_pcd_obs cx4_obj_pcd_pts = Ok fused /\
    fused = filter (fun p => euclidean_distance p (centroid (concat cx4_obj_pcd_pts))
                             < 2 / 10)
                   (concat cx4_obj_pcd_pts) /\
    (forall p, p ∈ concat cx4_obj_pcd_pts ->
       euclidean_distance p (centroid (concat cx4_obj_pcd_pts)) = 2 / 10 ->
       p ∉ fused) /\
    ((forall p, p ∈ concat cx4_obj_pcd_pts ->
        euclidean_distance p (centroid (concat cx4_obj_pcd_pts)) <= 5 / 100 \/
        euclidean_distance p (centroid (concat cx4_obj_pcd_pts)) = 5) ->
     fused = filter (fun p => euclidean_distance p (centroid (concat cx4_obj_pcd_pts))
                              <= 5 / 100)
                    (concat cx4_obj_pcd_pts)).
Proof.
  apply (fusion_strict_radius cx4_obj_pcd_pts). discriminate.
Defined.

(** ** Running a trial *)

Lemma bind_Ok {A B} (m : result A) (f : A -> result B) b :
  m ≫= f = Ok b -> exists a, m = Ok a /\ f a = Ok b.
Proof. destruct m as [a|e]; [|discriminate]. intros H. exists a. split; [reflexivity|exact H]. Qed.

Tactic Notation "inv_bind" hyp(H) "as" ident(a) ident(Ha) :=
  apply bind_Ok in H; destruct H as (a & Ha & H).

(** A trial that runs to its end went through every stage. *)
Lemma main_iteration_inv E args sc iteration w w' t :
  main_iteration E args sc iteration w = Ok (w', t) ->
  let pc_master := pc_master_dict args sc in
  let cams := cams_observe E (sim w) in
  exists parent_pcd child_pcd start_child_pose start_parent_pose upright
         relative_trans part_pose_dict pl success_crit_dict obj_surf_contacts st,
    target_obj_pcd_obs (pc_obs_info_pcd_pts E cams (pb_obj_id (parent pc_master)))
    = Ok parent_pcd /\
    target_obj_pcd_obs (pc_obs_info_pcd_pts E cams (pb_obj_id (child pc_master)))
    = Ok child_pcd /\
    get_body_state (sim w) (pb_obj_id (child pc_master)) = Ok start_child_pose /\
    get_body_state (sim w) (pb_obj_id (parent pc_master)) = Ok start_parent_pose /\
    dict_get upright_orientation_dict (parent_class args) = Some upright /\
    infer_relation_task E parent_pcd child_pcd
      (mesh_file (parent pc_master)) (mesh_file (child pc_master))
      start_parent_pose start_child_pose
      (mesh_scale (parent pc_master)) (mesh_scale (child pc_master))
    = Ok (relative_trans, part_pose_dict) /\
    placement_composer E (sim w) pc_master start_parent_pose start_child_pose
      upright relative_trans = Ok pl /\
    first_evaluation E args (settle_for_evaluation E pc_master sc (pl_sim pl)) pc_master
    = Ok (success_crit_dict, obj_surf_contacts) /\
    stress_test E (settle_for_evaluation E pc_master sc (pl_sim pl)) pc_master
      start_parent_pose start_child_pose upright (pl_final_child_pose_mat pl) = Ok st /\
    let success_crit_dict' :=
      dict_set success_crit_dict "fell_off_upside_down"
               (negb (touching (st_ud_obj_surf_contacts st))) in
    t = Build_Trial (map cam_int_mat cams) (map cam_ext_mat cams)
          parent_pcd child_pcd start_parent_pose start_child_pose
          relative_trans part_pose_dict
          (pl_final_child_pose_mat pl) (pl_final_parent_pose pl)
          (pl_final_child_pose pl) parent_pcd (transform_pcd child_pcd relative_trans)
          obj_surf_contacts (st_upside_down_pose_mat st)
          (st_final_child_pose_parent st) (st_final_child_pose_upside_down st)
          (st_ud_obj_surf_contacts st) success_crit_dict'
          (np_all (dict_values success_crit_dict')) /\
    place_success_list w' = place_success_list w ++ [t_place_success t] /\
    demo_aug_dir w' =
      (if t_place_success t
       then demo_aug_dir w ++ [(iteration, save_dict args sc t)]
       else demo_aug_dir w).
Proof.
  intros H pc_master cams. unfold main_iteration in H.
  inv_bind H as ppcd Hppcd. inv_bind H as cpcd Hcpcd.
  inv_bind H as Sc HSc. inv_bind H as Sp HSp. inv_bind H as up Hup.
  inv_bind H as rp Hrp. destruct rp as [relative_trans part_pose_dict].
  inv_bind H as pl Hpl. inv_bind H as ev Hev. destruct ev as [d0 contacts].
  inv_bind H as st Hst.
  cbn [mret result_ret] in H. injection H as <- <-.
  exists ppcd, cpcd, Sc, Sp, up, relative_trans, part_pose_dict, pl, d0, contacts, st.
  repeat (split; [assumption|]).
  split.
  { unfold of_option in Hup.
    destruct (dict_get upright_orientation_dict _) eqn:Hd in Hup; [|discriminate].
    injection Hup as ->. exact Hd. }
  repeat (split; [assumption|]).
  cbn zeta. split; [reflexivity|]. split; reflexivity.
Qed.

Lemma has_body_set_step_sim s b obj_id :
  has_body (set_step_sim s b) obj_id <-> has_body s obj_id.
Proof. reflexivity. Qed.

Lemma has_body_safeRemoveConstraint s cid obj_id :
  has_body (safeRemoveConstraint s cid) obj_id <-> has_body s obj_id.
Proof. destruct cid; reflexivity. Qed.

Lemma has_body_time_sleep E s obj_id :
  physics_keeps_bodies E -> has_body s obj_id -> has_body (time_sleep E s) obj_id.
Proof.
  intros HE H. unfold time_sleep. destruct (step_sim s); [exact H|].
  apply HE, H.
Qed.

Lemma has_body_reset_body s obj_id pos ori s' j :
  reset_body s obj_id pos ori = Ok s' -> has_body s j -> has_body s' j.
Proof.
  intros H Hj. apply reset_body_inv in H as [_ ->].
  destruct s. apply has_body_insert. exact Hj.
Qed.

Lemma has_body_settle_for_evaluation E pc_master sc s obj_id :
  physics_keeps_bodies E -> has_body s obj_id ->
  has_body (settle_for_evaluation E pc_master sc s) obj_id.
Proof.
  intros HE H. unfold settle_for_evaluation.
  apply has_body_time_sleep; [exact HE|]. apply has_body_set_step_sim.
  apply has_body_time_sleep; [exact HE|].
  unfold safeCollisionFilterPair_off, has_body. cbn [body_state].
  repeat case_decide; rewrite ?has_body_safeRemoveConstraint;
    try apply has_body_safeRemoveConstraint;
    try apply has_body_safeRemoveConstraint; exact H.
Qed.

(** *** The stages, taken apart *)

Lemma placement_composer_inv E s pc_master Sp Sc up Rel pl :
  placement_composer E s pc_master Sp Sc up Rel = Ok pl ->
  pl_final_child_pose pl = pose_from_matrix (pl_final_child_pose_mat pl) /\
  (forall j, has_body (time_sleep E s) j -> has_body (pl_sim pl) j) /\
  (load_pose_type (parent pc_master) <> "any_pose"%string ->
   pl_final_child_pose_mat pl = matmul Rel (matrix_from_pose Sc)) /\
  (load_pose_type (parent pc_master) = "any_pose"%string ->
   det4 (matrix_from_pose Sp) <> 0 /\
   pl_final_parent_pose pl = Pose (position Sp) up /\
   pl_final_child_pose_mat pl
   = matmul (matmul (upright_parent_pose_mat (matrix_from_pose Sp) up)
                    (invert (matrix_from_pose Sp)))
            (matmul Rel (matrix_from_pose Sc))).
Proof.
  unfold placement_composer. intros H.
  inv_bind H as sf Hsf. destruct sf as [s1 fcm].
  inv_bind H as fpp Hfpp. inv_bind H as s2 Hs2.
  cbn [mret result_ret] in H. injection H as <-.
  cbn [pl_final_child_pose pl_final_child_pose_mat pl_sim pl_final_parent_pose].
  split; [reflexivity|].
  destruct (decide (load_pose_type (parent pc_master) = "any_pose"%string)) as [Hany|Hany].
  - inv_bind Hsf as ru Hru. inv_bind Hsf as s1' Hs1'.
    cbn [mret result_ret] in Hsf. injection Hsf as <- <-.
    unfold relative_upright_pose_mat in Hru. inv_bind Hru as inv Hinv.
    cbn [mret result_ret] in Hru. injection Hru as <-.
    unfold np_linalg_inv in Hinv.
    destruct (decide (det4 (matrix_from_pose Sp) = 0)) as [|Hd]; [discriminate|].
    injection Hinv as <-.
    split; [|split; [intros Hc; contradiction|]].
    + intros j Hj. eapply has_body_reset_body; [exact Hs2|].
      eapply has_body_reset_body; [exact Hs1'|]. exact Hj.
    + intros _. split; [exact Hd|]. split; [|reflexivity].
      apply reset_body_inv in Hs1' as [_ ->].
      unfold get_body_state in Hfpp. cbn [body_state] in Hfpp.
      rewrite lookup_insert_eq in Hfpp. cbn [of_option] in Hfpp.
      injection Hfpp as <-. reflexivity.
  - cbn [mret result_ret] in Hsf. injection Hsf as <- <-.
    split; [|split; [reflexivity | intros Hc; contradiction]].
    intros j Hj. eapply has_body_reset_body; [exact Hs2|]. exact Hj.
Qed.

Lemma placement_composer_ok E s pc_master Sp Sc up Rel :
  has_body (time_sleep E s) (pb_obj_id (parent pc_master)) ->
  has_body (time_sleep E s) (pb_obj_id (child pc_master)) ->
  (load_pose_type (parent pc_master) = "any_pose"%string ->
   det4 (matrix_from_pose Sp) <> 0) ->
  exists pl, placement_composer E s pc_master Sp Sc up Rel = Ok pl.
Proof.
  intros Hp Hc Hd. unfold placement_composer.
  destruct (decide (load_pose_type (parent pc_master) = "any_pose"%string)) as [Hany|Hany].
  - unfold relative_upright_pose_mat. rewrite np_linalg_inv_ok by (apply Hd, Hany).
    cbn [mbind result_bind mret result_ret].
    rewrite reset_body_ok by exact Hp.
    cbn [mbind result_bind mret result_ret].
    erewrite get_body_state_ok by (cbn [body_state]; apply lookup_insert_eq).
    cbn [mbind result_bind mret result_ret].
    rewrite reset_body_ok by (apply has_body_insert; exact Hc).
    eexists; reflexivity.
  - cbn [mbind result_bind mret result_ret].
    destruct Hp as [p Hp]. erewrite get_body_state_ok by exact Hp.
    cbn [mbind result_bind mret result_ret].
    rewrite reset_body_ok by exact Hc.
    eexists; reflexivity.
Qed.

Lemma first_evaluation_inv E args s pc_master d contacts :
  first_evaluation E args s pc_master = Ok (d, contacts) ->
  contacts
  = getContactPoints E s (pb_obj_id (child pc_master)) (pb_obj_id (parent pc_master)) /\
  (((parent_class args = "box_container" /\ child_class args = "bottle")%string /\
    exists bottle_final_pose,
      get_body_state s (pb_obj_id (child pc_master)) = Ok bottle_final_pose /\
      d = [("touching_surf", touching contacts);
           ("bottle_upright", bottle_upright args bottle_final_pose)]%string)
   \/
   (~ (parent_class args = "box_container" /\ child_class args = "bottle")%string /\
    d = [("touching_surf", touching contacts)]%string)).
Proof.
  unfold first_evaluation. intros H.
  destruct (decide (parent_class args = "box_container"%string
                    /\ child_class args = "bottle"%string)) as [Hb|Hb].
  - inv_bind H as p Hp. cbn [mret result_ret] in H. injection H as <- <-.
    split; [reflexivity|]. left. split; [exact Hb|]. exists p. split; [exact Hp|reflexivity].
  - cbn [mret result_ret] in H. injection H as <- <-.
    split; [reflexivity|]. right. split; [exact Hb|reflexivity].
Qed.

Lemma first_evaluation_ok E args s pc_master :
  has_body s (pb_obj_id (child pc_master)) ->
  exists r, first_evaluation E args s pc_master = Ok r.
Proof.
  intros [p Hp]. unfold first_evaluation. case_decide.
  - erewrite get_body_state_ok by exact Hp. eexists; reflexivity.
  - eexists; reflexivity.
Qed.

Lemma stress_test_inv E s pc_master Sp Sc up Fc st :
  stress_test E s pc_master Sp Sc up Fc = Ok st ->
  st_upside_down_pose_mat st = upside_down_pose_mat Sp up /\
  final_child_pose_parent (convert_reference_frame E) Fc (matrix_from_pose Sp)
  = Ok (st_final_child_pose_parent st) /\
  stress_child_pose (convert_reference_frame E) Fc (matrix_from_pose Sp)
    (upside_down_pose_mat Sp up)
  = Ok (st_final_child_pose_upside_down st) /\
  exists s',
    st_sim st = time_sleep E (set_step_sim s' false) /\
    st_ud_obj_surf_contacts st
    = getContactPoints E (st_sim st) (pb_obj_id (parent pc_master))
                       (pb_obj_id (child pc_master)).
Proof.
  unfold stress_test. intros H.
  inv_bind H as s1 Hs1. inv_bind H as s2 Hs2. inv_bind H as s3 Hs3.
  inv_bind H as fcp Hfcp. inv_bind H as fcud Hfcud. inv_bind H as s4 Hs4.
  cbn [mret result_ret] in H. injection H as <-.
  cbn [st_upside_down_pose_mat st_final_child_pose_parent
       st_final_child_pose_upside_down st_sim st_ud_obj_surf_contacts].
  split; [reflexivity|]. split; [exact Hfcp|]. split.
  - unfold stress_child_pose. rewrite Hfcp. exact Hfcud.
  - exists s4. split; reflexivity.
Qed.

Lemma stress_test_ok E s pc_master Sp Sc up Fc :
  conversion_returns E ->
  has_body s (pb_obj_id (parent pc_master)) ->
  has_body s (pb_obj_id (child pc_master)) ->
  exists st, stress_test E s pc_master Sp Sc up Fc = Ok st.
Proof.
  intros Hconv Hp Hc. unfold stress_test.
  set (s0 := safeRemoveConstraint _ (o_cid (child pc_master))).
  assert (Hp0 : has_body s0 (pb_obj_id (parent pc_master)))
    by (unfold s0; rewrite !has_body_safeRemoveConstraint; exact Hp).
  assert (Hc0 : has_body s0 (pb_obj_id (child pc_master)))
    by (unfold s0; rewrite !has_body_safeRemoveConstraint; exact Hc).
  destruct s0 as [m0 b0 c0 n0 co0].
  rewrite reset_body_ok by exact Hp0. cbn [mbind result_bind].
  rewrite reset_body_ok by (apply has_body_insert; exact Hc0). cbn [mbind result_bind].
  rewrite reset_body_ok by (do 2 apply has_body_insert; exact Hp0).
  cbn [mbind result_bind].
  unfold final_child_pose_parent, final_child_pose_upside_down.
  destruct (Hconv (pose_from_matrix Fc) (pose_from_matrix (matrix_from_pose Sp)) unit_pose)
    as [fcp ->].
  cbn [mbind result_bind].
  destruct (Hconv fcp unit_pose (pose_from_matrix (upside_down_pose_mat Sp up)))
    as [fcud ->].
  cbn [mbind result_bind].
  rewrite reset_body_ok.
  - eexists; reflexivity.
  - unfold constraint_obj_world, has_body. cbn [fst body_state].
    do 3 apply (has_body_insert _ b0 c0 n0 co0). exact Hc0.
Qed.

(** A trial runs to its end when: there is a camera; both bodies are loaded
    and the engine keeps them; the parent's class has an upright orientation;
    the proposer and the frame conversion return; and, for a parent loaded in
    any pose, its start pose is a valid pose. *)
Lemma main_iteration_completes E args sc iteration w :
  let pc_master := pc_master_dict args sc in
  cams_observe E (sim w) <> [] ->
  physics_keeps_bodies E -> proposer_returns E -> conversion_returns E ->
  has_body (sim w) (pb_obj_id (parent pc_master)) ->
  has_body (sim w) (pb_obj_id (child pc_master)) ->
  is_Some (dict_get upright_orientation_dict (parent_class args)) ->
  (parent_load_pose_type args = "any_pose"%string ->
   forall p, body_state (sim w) !! pb_obj_id (parent pc_master) = Some p -> valid_pose p) ->
  exists w' t, main_iteration E args sc iteration w = Ok (w', t).
Proof.
  intros pc_master Hcams Hphys Hprop Hconv Hp Hc [up Hup] Hvalid.
  unfold main_iteration. fold pc_master.
  rewrite !target_obj_pcd_obs_filter
    by (unfold pc_obs_info_pcd_pts; destruct (cams_observe E (sim w));
        [contradiction | discriminate]).
  cbn [mbind result_bind].
  destruct Hc as [Sc HSc]. destruct Hp as [Sp HSp].
  rewrite (get_body_state_ok _ _ _ HSc). cbn [mbind result_bind].
  rewrite (get_body_state_ok _ _ _ HSp). cbn [mbind result_bind].
  replace (obj_class (parent pc_master)) with (parent_class args) by reflexivity.
  rewrite Hup. cbn [of_option mbind result_bind].
  match goal with
  | |- context [infer_relation_task E ?a ?b ?c ?d ?e ?f ?g ?h] =>
      destruct (Hprop a b c d e f g h) as [[Rel parts] ->]
  end.
  cbn [mbind result_bind].
  destruct (placement_composer_ok E (sim w) pc_master Sp Sc up Rel) as [pl Hpl].
  { apply has_body_time_sleep; [exact Hphys | exists Sp; exact HSp]. }
  { apply has_body_time_sleep; [exact Hphys | exists Sc; exact HSc]. }
  { intros Hany. apply rigid_det4, rigid_matrix_from_pose.
    apply (Hvalid Hany). exact HSp. }
  rewrite Hpl. cbn [mbind result_bind].
  pose proof (placement_composer_inv _ _ _ _ _ _ _ _ Hpl) as (_ & Hkeep & _).
  set (s := settle_for_evaluation E pc_master sc (pl_sim pl)).
  assert (Hps : has_body s (pb_obj_id (parent pc_master))).
  { apply has_body_settle_for_evaluation; [exact Hphys|]. apply Hkeep.
    apply has_body_time_sleep; [exact Hphys | exists Sp; exact HSp]. }
  assert (Hcs : has_body s (pb_obj_id (child pc_master))).
  { apply has_body_settle_for_evaluation; [exact Hphys|]. apply Hkeep.
    apply has_body_time_sleep; [exact Hphys | exists Sc; exact HSc]. }
  destruct (first_evaluation_ok E args s pc_master Hcs) as [[d contacts] ->].
  cbn [mbind result_bind].
  destruct (stress_test_ok E s pc_master Sp Sc up (pl_final_child_pose_mat pl)
              Hconv Hps Hcs) as [st ->].
  cbn [mbind result_bind mret result_ret].
  eexists _, _. reflexivity.
Qed.

(** ** Dicts *)

Lemma dict_get_set_eq {V} (d : list (string * V)) k v :
  dict_get (dict_set d k v) k = Some v.
Proof.
  induction d as [|[k' v'] d IH]; cbn [dict_set dict_get].
  - rewrite String.eqb_refl. reflexivity.
  - destruct (String.eqb k' k) eqn:Hk; cbn [dict_get].
    + rewrite String.eqb_refl. reflexivity.
    + rewrite Hk. exact IH.
Qed.

Lemma dict_get_elem_of {V} (d : list (string * V)) k v :
  dict_get d k = Some v -> (k, v) ∈ d.
Proof.
  induction d as [|[k' v'] d IH]; cbn [dict_get]; [discriminate|].
  destruct (String.eqb k' k) eqn:Hk.
  - apply String.eqb_eq in Hk as ->. intros [= ->]. left.
  - intros H. right. apply IH, H.
Qed.

Lemma np_all_true (d : list (string * bool)) :
  np_all (dict_values d) = true <-> forall k v, (k, v) ∈ d -> v = true.
Proof.
  unfold np_all, dict_values. induction d as [|[k b] d IH]; cbn [map forallb].
  - split; [|reflexivity]. intros _ k v Hin. inversion Hin.
  - rewrite andb_true_iff, IH. split.
    + intros [Hb Hd] k' v' Hin. inversion Hin; subst; [exact Hb | eapply Hd; eassumption].
    + intros H. split; [apply (H k); left | intros k' v' Hin; apply (H k'); right; exact Hin].
Qed.

Lemma np_all_false_of (d : list (string * bool)) k :
  dict_get d k = Some false -> np_all (dict_values d) = false.
Proof.
  intros H. apply dict_get_elem_of in H.
  destruct (np_all (dict_values d)) eqn:Hall; [|reflexivity].
  rewrite np_all_true in Hall. symmetry. eapply Hall, H.
Qed.

Lemma touching_false (contacts : list Contact) :
  touching contacts = false <-> contacts = [].
Proof.
  unfold touching. destruct contacts; cbn [length].
  - split; [reflexivity|]. intros _. apply bool_decide_eq_false. lia.
  - split; [|discriminate]. rewrite bool_decide_eq_false. lia.
Qed.

(** ** Upright orientations *)

Lemma upright_orientation_dict_values cls up :
  dict_get upright_orientation_dict cls = Some up ->
  up = rot_x 0 \/ up = rot_x (PI / 2).
Proof.
  unfold upright_orientation_dict, euler2quat. cbn [dict_get].
  rewrite !euler2rot_roll.
  repeat (match goal with
          | |- context [if String.eqb ?a ?b then _ else _] => destruct (String.eqb a b)
          end;
          [intros [= <-]; auto|]).
  discriminate.
Qed.

(** ** The claims about a whole trial *)

(** C3.  In a trial that runs to its end, [place_success] is the
    conjunction of the criteria in [success_crit_dict]; the trial is appended
    to [place_success_list]; and [np.savez] is called, once and with this
    trial's record, exactly when [place_success] is true. *)
Theorem place_success_and_record E args sc iteration w w' t :
  main_iteration E args sc iteration w = Ok (w', t) ->
  (t_place_success t = true <->
   forall k v, (k, v) ∈ t_success_crit_dict t -> v = true) /\
  place_success_list w' = place_success_list w ++ [t_place_success t] /\
  (t_place_success t = true ->
   demo_aug_dir w' = demo_aug_dir w ++ [(iteration, save_dict args sc t)] /\
   success (save_dict args sc t) = true) /\
  (t_place_success t = false -> demo_aug_dir w' = demo_aug_dir w) /\
  (length (demo_aug_dir w') = S (length (demo_aug_dir w)) <-> t_place_success t = true).
Proof.
  intros H. apply main_iteration_inv in H.
  destruct H as (ppcd & cpcd & Sc & Sp & up & Rel & parts & pl & d & contacts & st
                 & _ & _ & _ & _ & _ & _ & _ & _ & _ & Ht & Hlist & Hdir).
  cbn zeta in Ht.
  split.
  { rewrite Ht. cbn [t_place_success t_success_crit_dict]. apply np_all_true. }
  split; [exact Hlist|].
  rewrite Hdir. destruct (t_place_success t) eqn:Hs.
  - split; [intros _; split; [reflexivity | exact Hs]|].
    split; [discriminate|]. rewrite length_app. cbn [length]. split; [reflexivity | lia].
  - split; [discriminate|]. split; [reflexivity|]. split; [lia | discriminate].
Qed.

(** C7.  [fell_off_upside_down] is true exactly when the contact query
    between parent and child, made once the engine has run with the parent
    upside down, returns no contact; with a contact the criterion is false
    and so is [place_success]. *)
Theorem fell_off_upside_down_criterion E args sc iteration w w' t :
  main_iteration E args sc iteration w = Ok (w', t) ->
  let pc_master := pc_master_dict args sc in
  (exists s,
     t_ud_obj_surf_contacts t
     = getContactPoints E (time_sleep E (set_step_sim s false))
         (pb_obj_id (parent pc_master)) (pb_obj_id (child pc_master))) /\
  (dict_get (t_success_crit_dict t) "fell_off_upside_down" = Some true <->
   t_ud_obj_surf_contacts t = []) /\
  (t_ud_obj_surf_contacts t <> [] ->
   dict_get (t_success_crit_dict t) "fell_off_upside_down" = Some false /\
   t_place_success t = false).
Proof.
  intros H pc_master. apply main_iteration_inv in H.
  destruct H as (ppcd & cpcd & Sc & Sp & up & Rel & parts & pl & d & contacts & st
                 & _ & _ & _ & _ & _ & _ & _ & _ & Hst & Ht & _ & _).
  cbn zeta in Ht. apply stress_test_inv in Hst as (_ & _ & _ & s' & Hs' & Hc).
  rewrite Ht. cbn [t_ud_obj_surf_contacts t_success_crit_dict t_place_success].
  split; [exists s'; rewrite Hc, Hs'; reflexivity|].
  rewrite dict_get_set_eq.
  split.
  - rewrite <- touching_false. destruct (touching _); cbn [negb]; split; congruence.
  - intros Hne.
    assert (Ht' : touching (st_ud_obj_surf_contacts st) = true).
    { destruct (touching _) eqn:Hx; [reflexivity|]. apply touching_false in Hx.
      contradiction. }
    rewrite Ht'. cbn [negb]. split; [reflexivity|].
    eapply np_all_false_of. apply dict_get_set_eq.
Qed.

(** C8.  The record saved for a successful trial holds, as the child's final
    cloud, the child's fused start cloud with the proposed relative transform
    applied to every point, and, as the parent's final cloud, the parent's
    fused start cloud as it is. *)
Theorem saved_final_point_clouds E args sc iteration w w' t :
  main_iteration E args sc iteration w = Ok (w', t) ->
  t_place_success t = true ->
  let pc_master := pc_master_dict args sc in
  let cams := cams_observe E (sim w) in
  exists rec,
    demo_aug_dir w' = demo_aug_dir w ++ [(iteration, rec)] /\
    target_obj_pcd_obs (pc_obs_info_pcd_pts E cams (pb_obj_id (parent pc_master)))
    = Ok (parent (multi_obj_start_pcd rec)) /\
    target_obj_pcd_obs (pc_obs_info_pcd_pts E cams (pb_obj_id (child pc_master)))
    = Ok (child (multi_obj_start_pcd rec)) /\
    (exists part_pose_dict,
       infer_relation_task E
         (parent (multi_obj_start_pcd rec)) (child (multi_obj_start_pcd rec))
         (mesh_file (parent pc_master)) (mesh_file (child pc_master))
         (parent (multi_obj_start_obj_pose rec)) (child (multi_obj_start_obj_pose rec))
         (mesh_scale (parent pc_master)) (mesh_scale (child pc_master))
       = Ok (t_relative_trans t, part_pose_dict)) /\
    child (multi_obj_final_pcd rec)
    = map (transform_point (t_relative_trans t)) (child (multi_obj_start_pcd rec)) /\
    parent (multi_obj_final_pcd rec) = parent (multi_obj_start_pcd rec).
Proof.
  intros H Hs pc_master cams. apply main_iteration_inv in H.
  destruct H as (ppcd & cpcd & Sc & Sp & up & Rel & parts & pl & d & contacts & st
                 & Hp & Hc & _ & _ & _ & Hrel & _ & _ & _ & Ht & _ & Hdir).
  cbn zeta in Ht. rewrite Hs in Hdir.
  exists (save_dict args sc t). split; [exact Hdir|].
  rewrite Ht. cbn [save_dict multi_obj_start_pcd multi_obj_final_pcd
                   multi_obj_start_obj_pose parent child
                   t_parent_pcd t_child_pcd t_final_parent_pcd t_final_child_pcd
                   t_relative_trans t_start_parent_pose t_start_child_pose].
  split; [exact Hp|]. split; [exact Hc|]. split; [exists parts; exact Hrel|].
  split; reflexivity.
Qed.


(** C6.  The upside-down pose of the parent has, as orientation, the
    half-turn about the x axis applied to the upright orientation of the
    parent's class, and, as position, the parent's start position moved up
    by 0.15 along the world's z axis.  For every class of
    [upright_orientation_dict] the half-turn about the world's x axis is
    also the half-turn about the body's own x axis. *)
Theorem upside_down_parent_pose E args sc iteration w w' t :
  main_iteration E args sc iteration w = Ok (w', t) ->
  exists upright,
    dict_get upright_orientation_dict (parent_class args) = Some upright /\
    t_upside_down_pose_mat t = upside_down_pose_mat (t_start_parent_pose t) upright /\
    rot_of (t_upside_down_pose_mat t) = matmul3 (rot_x PI) upright /\
    rot_x PI = Mat3 1 0 0 0 (-1) 0 0 0 (-1) /\
    matmul3 (rot_x PI) upright = matmul3 upright (rot_x PI) /\
    pos_of (t_upside_down_pose_mat t)
    = vadd (position (t_start_parent_pose t)) (0, 0, 15 / 100) /\
    homogeneous (t_upside_down_pose_mat t).
Proof.
  intros H. apply main_iteration_inv in H.
  destruct H as (ppcd & cpcd & Sc & Sp & up & Rel & parts & pl & d & contacts & st
                 & _ & _ & _ & _ & Hup & _ & _ & _ & Hst & Ht & _ & _).
  cbn zeta in Ht. apply stress_test_inv in Hst as (Hud & _).
  exists up. rewrite Ht. cbn [t_upside_down_pose_mat t_start_parent_pose]. rewrite Hud.
  split; [exact Hup|]. split; [reflexivity|].
  unfold upside_down_pose_mat, upside_down_ori_mat. rewrite euler2rot_roll.
  split; [destruct Sp as [[[x y] z] r]; reflexivity|].
  split; [exact rot_x_PI|].
  split; [destruct (upright_orientation_dict_values _ _ Hup) as [-> | ->]; apply rot_x_comm|].
  split.
  - destruct Sp as [[[x y] z] r]. cbn [position vadd]. mat_unfold.
    f_equal; [f_equal|..]; ring.
  - destruct Sp as [[[x y] z] r]. unfold homogeneous. mat_unfold.
    repeat split; reflexivity.
Qed.

Lemma placement_composer_deterministic E1 E2 s1 s2 pcm1 pcm2 Sp Sc up Rel pl1 pl2 :
  load_pose_type (parent pcm1) = load_pose_type (parent pcm2) ->
  placement_composer E1 s1 pcm1 Sp Sc up Rel = Ok pl1 ->
  placement_composer E2 s2 pcm2 Sp Sc up Rel = Ok pl2 ->
  pl_final_child_pose_mat pl1 = pl_final_child_pose_mat pl2.
Proof.
  intros Hl H1 H2.
  apply placement_composer_inv in H1 as (_ & _ & Hn1 & Ha1).
  apply placement_composer_inv in H2 as (_ & _ & Hn2 & Ha2).
  destruct (decide (load_pose_type (parent pcm1) = "any_pose"%string)) as [Hany|Hany].
  - destruct (Ha1 Hany) as (_ & _ & ->).
    rewrite Hl in Hany. destruct (Ha2 Hany) as (_ & _ & ->). reflexivity.
  - rewrite (Hn1 Hany). rewrite Hl in Hany. rewrite (Hn2 Hany). reflexivity.
Qed.

(** C9.  Two trials run with the same arguments and the same frame
    conversion, whatever their simulators, cameras, engines and scenes, that
    start from the same parent and child poses and get the same relative
    transform, derive the same upside-down parent pose and the same child
    poses for it. *)
Theorem stress_pose_derivation_deterministic
    E1 E2 args sc1 sc2 it1 it2 w1 w2 w1' w2' t1 t2 :
  convert_reference_frame E1 = convert_reference_frame E2 ->
  main_iteration E1 args sc1 it1 w1 = Ok (w1', t1) ->
  main_iteration E2 args sc2 it2 w2 = Ok (w2', t2) ->
  t_start_parent_pose t1 = t_start_parent_pose t2 ->
  t_start_child_pose t1 = t_start_child_pose t2 ->
  t_relative_trans t1 = t_relative_trans t2 ->
  t_upside_down_pose_mat t1 = t_upside_down_pose_mat t2 /\
  t_final_child_pose_parent t1 = t_final_child_pose_parent t2 /\
  t_final_child_pose_upside_down t1 = t_final_child_pose_upside_down t2.
Proof.
  intros Hcrf H1 H2.
  apply main_iteration_inv in H1.
  destruct H1 as (ppcd1 & cpcd1 & Sc1 & Sp1 & up1 & Rel1 & parts1 & pl1 & d1 & c1 & st1
                  & _ & _ & _ & _ & Hup1 & _ & Hpl1 & _ & Hst1 & Ht1 & _ & _).
  apply main_iteration_inv in H2.
  destruct H2 as (ppcd2 & cpcd2 & Sc2 & Sp2 & up2 & Rel2 & parts2 & pl2 & d2 & c2 & st2
                  & _ & _ & _ & _ & Hup2 & _ & Hpl2 & _ & Hst2 & Ht2 & _ & _).
  cbn zeta in Ht1, Ht2. rewrite Ht1, Ht2.
  cbn [t_start_parent_pose t_start_child_pose t_relative_trans t_upside_down_pose_mat
       t_final_child_pose_parent t_final_child_pose_upside_down].
  intros -> -> ->.
  assert (up1 = up2) as -> by congruence.
  assert (HFc : pl_final_child_pose_mat pl1 = pl_final_child_pose_mat pl2)
    by (eapply placement_composer_deterministic; [|exact Hpl1|exact Hpl2]; reflexivity).
  apply stress_test_inv in Hst1 as (Hud1 & Hp1 & Hc1 & _).
  apply stress_test_inv in Hst2 as (Hud2 & Hp2 & Hc2 & _).
  rewrite Hcrf, HFc in Hp1, Hc1.
  split; [congruence|]. split; congruence.
Qed.

(** ** Missing observations *)




(** ** The trial loop *)

(** Every trial of a run that reaches its end is counted. *)
Lemma trials_count E args its w w' :
  trials E args its w = Ok w' ->
  length (place_success_list w') = (length (place_success_list w) + length its)%nat.
Proof.
  revert w. induction its as [|it its IH]; intros w H; cbn [trials] in H.
  - injection H as <-. cbn [length]. lia.
  - destruct (load_objects E it (sim w)) as [sc s].
    inv_bind H as r Hr. destruct r as [w1 t1].
    apply IH in H. apply main_iteration_inv in Hr.
    destruct Hr as (? & ? & ? & ? & ? & ? & ? & ? & ? & ? & ? & Hr).
    destruct Hr as (_ & _ & _ & _ & _ & _ & _ & _ & _ & _ & Hl & _).
    cbn [place_success_list] in Hl. rewrite H, Hl, length_app. cbn [length]. lia.
Qed.

(** Only successful trials are saved. *)
Lemma trials_saved_success E args its w w' :
  trials E args its w = Ok w' ->
  Forall (fun r => success r.2 = true) (demo_aug_dir w) ->
  Forall (fun r => success r.2 = true) (demo_aug_dir w').
Proof.
  revert w. induction its as [|it its IH]; intros w H Hall; cbn [trials] in H.
  - injection H as <-. exact Hall.
  - destruct (load_objects E it (sim w)) as [sc s].
    inv_bind H as r Hr. destruct r as [w1 t1].
    apply IH in H; [exact H|]. apply main_iteration_inv in Hr.
    destruct Hr as (? & ? & ? & ? & ? & ? & ? & ? & ? & ? & ? & Hr).
    destruct Hr as (_ & _ & _ & _ & _ & _ & _ & _ & _ & _ & _ & Hd).
    cbn [demo_aug_dir] in Hd. rewrite Hd.
    destruct (t_place_success t1) eqn:Hs; [|exact Hall].
    apply Forall_app. split; [exact Hall|]. constructor; [exact Hs | constructor].
Qed.

(** ** Constraint ids through a trial *)

Lemma next_cid_reset_body s obj_id pos ori s' :
  reset_body s obj_id pos ori = Ok s' -> next_cid s' = next_cid s.
Proof. intros H. apply reset_body_inv in H as [_ ->]. reflexivity. Qed.

Lemma next_cid_time_sleep E s : next_cid (time_sleep E s) = next_cid s.
Proof. unfold time_sleep. destruct (step_sim s); reflexivity. Qed.

Lemma next_cid_safeRemoveConstraint s cid :
  next_cid (safeRemoveConstraint s cid) = next_cid s.
Proof. destruct cid; reflexivity. Qed.

Lemma next_cid_settle_for_evaluation E pc_master sc s :
  next_cid (settle_for_evaluation E pc_master sc s) = next_cid s.
Proof.
  unfold settle_for_evaluation. rewrite next_cid_time_sleep.
  cbn [set_step_sim next_cid]. rewrite next_cid_time_sleep.
  cbn [safeCollisionFilterPair_off next_cid].
  repeat case_decide; rewrite ?next_cid_safeRemoveConstraint; reflexivity.
Qed.

Lemma next_cid_placement_composer E s pc_master Sp Sc up Rel pl :
  placement_composer E s pc_master Sp Sc up Rel = Ok pl ->
  next_cid (pl_sim pl) = next_cid s.
Proof.
  unfold placement_composer. intros H.
  inv_bind H as sf Hsf. destruct sf as [s1 fcm].
  inv_bind H as fpp Hfpp. inv_bind H as s2 Hs2.
  cbn [mret result_ret] in H. injection H as <-. cbn [pl_sim].
  rewrite (next_cid_reset_body _ _ _ _ _ Hs2).
  case_decide.
  - inv_bind Hsf as ru Hru. inv_bind Hsf as s1' Hs1'.
    cbn [mret result_ret] in Hsf. injection Hsf as <- <-.
    rewrite (next_cid_reset_body _ _ _ _ _ Hs1').
    cbn [set_step_sim next_cid]. apply next_cid_time_sleep.
  - cbn [mret result_ret] in Hsf. injection Hsf as <- <-.
    cbn [set_step_sim next_cid]. apply next_cid_time_sleep.
Qed.

Lemma next_cid_stress_test E s pc_master Sp Sc up Fc st :
  stress_test E s pc_master Sp Sc up Fc = Ok st ->
  next_cid (st_sim st) = (next_cid s + 1)%Z.
Proof.
  unfold stress_test. intros H.
  inv_bind H as s1 Hs1. inv_bind H as s2 Hs2. inv_bind H as s3 Hs3.
  inv_bind H as fcp Hfcp. inv_bind H as fcud Hfcud. inv_bind H as s4 Hs4.
  cbn [mret result_ret] in H. injection H as <-. cbn [st_sim].
  rewrite next_cid_time_sleep. cbn [set_step_sim next_cid].
  rewrite (next_cid_reset_body _ _ _ _ _ Hs4).
  cbn [constraint_obj_world fst next_cid].
  rewrite (next_cid_reset_body _ _ _ _ _ Hs3), (next_cid_reset_body _ _ _ _ _ Hs2),
    (next_cid_reset_body _ _ _ _ _ Hs1).
  rewrite !next_cid_safeRemoveConstraint. reflexivity.
Qed.

(** ** The demo scene *)

Lemma demo_bodies_parent : demo_bodies !! 1%Z = Some unit_pose.
Proof. unfold demo_bodies. apply lookup_insert_eq. Qed.

Lemma demo_bodies_child : demo_bodies !! 2%Z = Some (Pose (0, 0, 1 / 10) eye3).
Proof.
  unfold demo_bodies. rewrite lookup_insert_ne by discriminate. apply lookup_insert_eq.
Qed.

Lemma demo_physics_keeps : physics_keeps_bodies demo_collaborators.
Proof. intros s obj_id H. exact H. Qed.

Lemma cx5_physics_keeps : physics_keeps_bodies cx5_collaborators.
Proof. intros s obj_id H. exact H. Qed.

Lemma demo_completes :
  exists w' t,
    main_iteration demo_collaborators demo_args demo_scene 0 demo_world = Ok (w', t).
Proof.
  apply main_iteration_completes.
  - discriminate.
  - exact demo_physics_keeps.
  - intros ? ? ? ? ? ? ? ?. eexists; reflexivity.
  - intros ? ? ?. eexists; reflexivity.
  - exists unit_pose. exact demo_bodies_parent.
  - eexists. exact demo_bodies_child.
  - eexists; reflexivity.
  - discriminate.
Qed.

Lemma demo_later_completes :
  exists w' t,
    main_iteration cx5_collaborators demo_args demo_scene 7 demo_world_later
    = Ok (w', t).
Proof.
  apply main_iteration_completes.
  - discriminate.
  - exact cx5_physics_keeps.
  - intros ? ? ? ? ? ? ? ?. eexists; reflexivity.
  - intros ? ? ?. eexists; reflexivity.
  - exists unit_pose. exact demo_bodies_parent.
  - eexists. exact demo_bodies_child.
  - eexists; reflexivity.
  - discriminate.
Qed.


(** With contacts until the parent is pinned and none after, a trial on the
    demo scene succeeds. *)
Lemma pinned_parent_trial_succeeds E iteration w w' t :
  (forall s a b,
     getContactPoints E s a b = if (next_cid s =? 0)%Z then [demo_contact] else []) ->
  next_cid (sim w) = 0%Z ->
  main_iteration E demo_args demo_scene iteration w = Ok (w', t) ->
  t_success_crit_dict t
  = [("touching_surf", true); ("fell_off_upside_down", true)]%string /\
  t_place_success t = true.
Proof.
  intros Hc Hn H. apply main_iteration_inv in H.
  destruct H as (ppcd & cpcd & Sc & Sp & up & Rel & parts & pl & d & contacts & st
                 & _ & _ & _ & _ & _ & _ & Hpl & Hev & Hst & Ht & _ & _).
  cbn zeta in Ht.
  apply next_cid_placement_composer in Hpl.
  pose proof (next_cid_stress_test _ _ _ _ _ _ _ _ Hst) as Hn'.
  rewrite next_cid_settle_for_evaluation, Hpl, Hn in Hn'.
  apply stress_test_inv in Hst as (_ & _ & _ & s' & _ & Hud).
  rewrite Hc, Hn' in Hud. cbn in Hud.
  apply first_evaluation_inv in Hev as [Hco [[[Hb _] _] | [_ ->]]]; [discriminate Hb|].
  rewrite Hc, next_cid_settle_for_evaluation, Hpl, Hn in Hco. cbn in Hco.
  rewrite Ht, Hud, Hco. cbn [t_success_crit_dict t_place_success].
  split; reflexivity.
Qed.

Lemma demo_trial_succeeds w' t :
  main_iteration demo_collaborators demo_args demo_scene 0 demo_world = Ok (w', t) ->
  t_success_crit_dict t
  = [("touching_surf", true); ("fell_off_upside_down", true)]%string /\
  t_place_success t = true.
Proof. apply pinned_parent_trial_succeeds; reflexivity. Qed.


Lemma main_iteration_reads E args sc iteration w w' t :
  main_iteration E args sc iteration w = Ok (w', t) ->
  let pc_master := pc_master_dict args sc in
  get_body_state (sim w) (pb_obj_id (parent pc_master)) = Ok (t_start_parent_pose t) /\
  get_body_state (sim w) (pb_obj_id (child pc_master)) = Ok (t_start_child_pose t) /\
  exists part_pose_dict,
    infer_relation_task E (t_parent_pcd t) (t_child_pcd t)
      (mesh_file (parent pc_master)) (mesh_file (child pc_master))
      (t_start_parent_pose t) (t_start_child_pose t)
      (mesh_scale (parent pc_master)) (mesh_scale (child pc_master))
    = Ok (t_relative_trans t, part_pose_dict).
Proof.
  intros H pc_master. apply main_iteration_inv in H.
  destruct H as (ppcd & cpcd & Sc & Sp & up & Rel & parts & pl & d & contacts & st
                 & _ & _ & HSc & HSp & _ & Hrel & _ & _ & _ & Ht & _ & _).
  cbn zeta in Ht. rewrite Ht.
  cbn [t_start_parent_pose t_start_child_pose t_parent_pcd t_child_pcd t_relative_trans].
  split; [exact HSp|]. split; [exact HSc|]. exists parts. exact Hrel.
Qed.

Lemma demo_scene_reads E iteration w w' t :
  body_state (sim w) = demo_bodies ->
  (forall a b c d e f g h, infer_relation_task E a b c d e f g h = Ok (eye4, [])) ->
  main_iteration E demo_args demo_scene iteration w = Ok (w', t) ->
  t_start_parent_pose t = unit_pose /\
  t_start_child_pose t = Pose (0, 0, 1 / 10) eye3 /\
  t_relative_trans t = eye4.
Proof.
  intros Hb Hprop H. apply main_iteration_reads in H as (Hp & Hc & parts & Hrel).
  unfold get_body_state in Hp, Hc. rewrite Hb in Hp, Hc. cbn in Hp, Hc.
  rewrite demo_bodies_parent in Hp. rewrite demo_bodies_child in Hc.
  cbn [of_option] in Hp, Hc. injection Hp as <-. injection Hc as <-.
  rewrite Hprop in Hrel. injection Hrel as <- _. repeat split; reflexivity.
Qed.



(** ** The theorems at the concrete scenes *)


Lemma tilted_parent_pose_valid : valid_pose tilted_parent_pose.
Proof.
  unfold valid_pose, tilted_parent_pose. cbn [orientation].
  split; mat_unfold; [f_equal; ring | ring].
Qed.

Lemma placement_composer_upright_witness :
  exists pl,
    placement_composer demo_collaborators demo_sim
      (pc_master_dict any_pose_args demo_scene)
      tilted_parent_pose (Pose (0, 0, 1 / 10) eye3) eye3 eye4 = Ok pl /\
    pl_final_parent_pose pl = Pose (0, 0, 0) eye3 /\
    matmul (invert (upright_parent_pose_mat (matrix_from_pose tilted_parent_pose) eye3))
           (pl_final_child_pose_mat pl)
    = matmul (invert (matrix_from_pose tilted_parent_pose))
             (matmul eye4 (matrix_from_pose (Pose (0, 0, 1 / 10) eye3))).
Proof.
  destruct (placement_composer_upright demo_collaborators demo_sim
              (pc_master_dict any_pose_args demo_scene)
              tilted_parent_pose (Pose (0, 0, 1 / 10) eye3) eye3 eye4)
    as (pl & Hpl & Hpp & _ & _ & _ & _ & _ & Hrel).
  - reflexivity.
  - exact tilted_parent_pose_valid.
  - exact rotation_eye3.
  - exists unit_pose. exact demo_bodies_parent.
  - eexists. exact demo_bodies_child.
  - exists pl. split; [exact Hpl|]. split; [exact Hpp | exact Hrel].
Defined.

Lemma place_success_and_record_witness :
  exists w' t,
    main_iteration demo_collaborators demo_args demo_scene 0 demo_world = Ok (w', t) /\
    place_success_list w' = place_success_list demo_world ++ [t_place_success t] /\
    (length (demo_aug_dir w') = S (length (demo_aug_dir demo_world)) <->
     t_place_success t = true).
Proof.
  destruct demo_completes as (w' & t & H). exists w', t. split; [exact H|].
  destruct (place_success_and_record _ _ _ _ _ _ _ H) as (_ & Hl & _ & _ & Hiff).
  split; [exact Hl | exact Hiff].
Defined.

Lemma fell_off_upside_down_criterion_witness :
  exists w' t,
    main_iteration demo_collaborators demo_args demo_scene 0 demo_world = Ok (w', t) /\
    (dict_get (t_success_crit_dict t) "fell_off_upside_down" = Some true <->
     t_ud_obj_surf_contacts t = []).
Proof.
  destruct demo_completes as (w' & t & H). exists w', t. split; [exact H|].
  exact (proj1 (proj2 (fell_off_upside_down_criterion _ _ _ _ _ _ _ H))).
Defined.

Lemma saved_final_point_clouds_witness :
  exists w' t rec,
    main_iteration demo_collaborators demo_args demo_scene 0 demo_world = Ok (w', t) /\
    t_place_success t = true /\
    demo_aug_dir w' = demo_aug_dir demo_world ++ [(0%Z, rec)] /\
    child (multi_obj_final_pcd rec)
    = map (transform_point (t_relative_trans t)) (child (multi_obj_start_pcd rec)) /\
    parent (multi_obj_final_pcd rec) = parent (multi_obj_start_pcd rec).
Proof.
  destruct demo_completes as (w' & t & H).
  destruct (demo_trial_succeeds _ _ H) as [_ Hs].
  destruct (saved_final_point_clouds _ _ _ _ _ _ _ H Hs)
    as (rec & Hdir & _ & _ & _ & Hc & Hp).
  exists w', t, rec. repeat split; assumption.
Defined.


Lemma upside_down_parent_pose_witness :
  exists w' t,
    main_iteration demo_collaborators demo_args demo_scene 0 demo_world = Ok (w', t) /\
    pos_of (t_upside_down_pose_mat t)
    = vadd (position (t_start_parent_pose t)) (0, 0, 15 / 100).
Proof.
  destruct demo_completes as (w' & t & H). exists w', t. split; [exact H|].
  destruct (upside_down_parent_pose _ _ _ _ _ _ _ H) as (up & _ & _ & _ & _ & _ & Hpos & _).
  exact Hpos.
Defined.

Lemma stress_pose_derivation_deterministic_witness :
  exists w1' t1 w2' t2,
    main_iteration demo_collaborators demo_args demo_scene 0 demo_world
    = Ok (w1', t1) /\
    main_iteration cx5_collaborators demo_args demo_scene 7 demo_world_later
    = Ok (w2', t2) /\
    t_upside_down_pose_mat t1 = t_upside_down_pose_mat t2 /\
    t_final_child_pose_parent t1 = t_final_child_pose_parent t2 /\
    t_final_child_pose_upside_down t1 = t_final_child_pose_upside_down t2.
Proof.
  destruct demo_completes as (w1' & t1 & H1).
  destruct demo_later_completes as (w2' & t2 & H2).
  exists w1', t1, w2', t2. split; [exact H1|]. split; [exact H2|].
  destruct (demo_scene_reads demo_collaborators 0 demo_world w1' t1
              eq_refl (fun _ _ _ _ _ _ _ _ => eq_refl) H1) as (Hp1 & Hc1 & Hr1).
  destruct (demo_scene_reads cx5_collaborators 7 demo_world_later w2' t2
              eq_refl (fun _ _ _ _ _ _ _ _ => eq_refl) H2) as (Hp2 & Hc2 & Hr2).
  apply (stress_pose_derivation_deterministic demo_collaborators cx5_collaborators
           demo_args demo_scene demo_scene 0 7 demo_world demo_world_later
           w1' w2' t1 t2 eq_refl H1 H2).
  - rewrite Hp1, Hp2. reflexivity.
  - rewrite Hc1, Hc2. reflexivity.
  - rewrite Hr1, Hr2. reflexivity.
Defined.
(** ** Further facts: the frame algebra of spec 8, the bottle's axis, and the
    end-to-end scenario *)

Lemma compose_assoc a b c : compose (compose a b) c = compose a (compose b c).
Proof.
  unfold compose at 1 3. rewrite !compose_matrix, matmul_assoc. reflexivity.
Qed.

Lemma compose_invert_pose_r p : valid_pose p -> compose p (invert_pose p) = unit_pose.
Proof.
  intros Hp.
  assert (Hd : det4 (matrix_from_pose p) <> 0)
    by (apply rigid_det4, rigid_matrix_from_pose, Hp).
  unfold compose. rewrite invert_pose_matrix, matmul_invert_r by assumption.
  reflexivity.
Qed.

(** Converting between a frame and itself changes nothing. *)
Lemma convert_reference_frame_spec_same_frame p f :
  valid_pose f -> convert_reference_frame_spec p f f = p.
Proof.
  intros Hf. unfold convert_reference_frame_spec.
  rewrite <- compose_assoc, compose_invert_pose_r by assumption.
  apply compose_unit_l.
Qed.

(** For a valid pose the body's y axis is already a unit vector, and the
    angle to the vertical is the arc cosine of its z component. *)
Lemma angle_from_upright_valid_pose p :
  valid_pose p -> angle_from_upright p = acos (r21 (orientation p)).
Proof.
  intros [Ho _]. destruct p as [pos [a b c d e f g h i]]. cbn [orientation] in *.
  apply (f_equal r11) in Ho. mat_unfold_in Ho.
  unfold angle_from_upright, angle_from_3d_vectors, bottle_body_y, np_linalg_norm.
  cbn [orientation r01 r11 r21 vscale vdot].
  assert (H1 : sqrt (b * b + e * e + h * h) = 1)
    by (rewrite <- sqrt_1; f_equal; lra).
  rewrite H1, Rinv_1.
  replace (1 * b * (1 * b) + 1 * e * (1 * e) + 1 * h * (1 * h)) with 1 by lra.
  replace (0 * 0 + 0 * 0 + 1 * 1) with 1 by lra.
  rewrite sqrt_1. f_equal. field.
Qed.

(** The end-to-end scenario of spec 8: parent at the identity, child at
    (0, 0, 0.1), identity relative transform; the child ends where it
    started, both criteria hold, and the trial is saved. *)
Example end_to_end_scenario :
  exists w' t,
    main_iteration demo_collaborators demo_args demo_scene 0 demo_world = Ok (w', t) /\
    t_start_parent_pose t = unit_pose /\
    t_start_child_pose t = Pose (0, 0, 1 / 10) eye3 /\
    t_relative_trans t = eye4 /\
    t_final_child_pose t = t_start_child_pose t /\
    t_success_crit_dict t
    = [("touching_surf", true); ("fell_off_upside_down", true)]%string /\
    t_place_success t = true /\
    place_success_list w' = [true] /\
    demo_aug_dir w' = [(0%Z, save_dict demo_args demo_scene t)].
Proof.
  destruct demo_completes as (w' & t & H). exists w', t. split; [exact H|].
  destruct (demo_scene_reads demo_collaborators 0 demo_world w' t
              eq_refl (fun _ _ _ _ _ _ _ _ => eq_refl) H) as (HSp & HSc & HRel).
  destruct (demo_trial_succeeds _ _ H) as [Hd Hs].
  apply main_iteration_inv in H.
  destruct H as (ppcd & cpcd & Sc & Sp & up & Rel & parts & pl & d & contacts & st
                 & _ & _ & _ & _ & _ & _ & Hpl & _ & _ & Ht & Hlist & Hdir).
  cbn zeta in Ht. rewrite Hs in Hlist, Hdir.
  split; [exact HSp|]. split; [exact HSc|]. split; [exact HRel|].
  split; [|split; [exact Hd|split; [exact Hs|split; [exact Hlist|exact Hdir]]]].
  rewrite Ht in HSc, HRel |- *.
  cbn [t_start_child_pose t_relative_trans t_final_child_pose] in *.
  apply placement_composer_inv in Hpl as (Hfc & _ & Hn & _).
  rewrite Hfc, Hn by discriminate. rewrite HRel, matmul_eye_l.
  apply pose_from_matrix_from_pose.
Qed.

(** * Further properties of the code *)

(** ** Vectors *)

Lemma vdot_self_nonneg v : 0 <= vdot v v.
Proof. destruct v as [[a b] c]. cbn [vdot]. nra. Qed.

Lemma np_linalg_norm_nonneg v : 0 <= np_linalg_norm v.
Proof. apply sqrt_pos. Qed.

Lemma np_linalg_norm_sqr v : np_linalg_norm v * np_linalg_norm v = vdot v v.
Proof. apply sqrt_sqrt, vdot_self_nonneg. Qed.

Lemma vdot_cauchy_schwarz u v : vdot u v <= np_linalg_norm u * np_linalg_norm v.
Proof.
  assert (Hsq : vdot u v * vdot u v <= vdot u u * vdot v v).
  { destruct u as [[a b] c], v as [[x y] z]. cbn [vdot].
    pose proof (Rle_0_sqr (a * y - b * x)) as H1.
    pose proof (Rle_0_sqr (a * z - c * x)) as H2.
    pose proof (Rle_0_sqr (b * z - c * y)) as H3.
    unfold Rsqr in H1, H2, H3.
    assert (Hid : (a * a + b * b + c * c) * (x * x + y * y + z * z)
                  - (a * x + b * y + c * z) * (a * x + b * y + c * z)
                  = (a * y - b * x) * (a * y - b * x)
                    + (a * z - c * x) * (a * z - c * x)
                    + (b * z - c * y) * (b * z - c * y)) by ring.
    lra. }
  pose proof (np_linalg_norm_nonneg u) as Hu.
  pose proof (np_linalg_norm_nonneg v) as Hv.
  pose proof (np_linalg_norm_sqr u) as Hu2.
  pose proof (np_linalg_norm_sqr v) as Hv2.
  destruct (Rle_dec (vdot u v) (np_linalg_norm u * np_linalg_norm v)) as [|Hn];
    [assumption|].
  exfalso. apply Rnot_le_lt in Hn.
  assert (0 <= np_linalg_norm u * np_linalg_norm v) by nra.
  assert (np_linalg_norm u * np_linalg_norm v * (np_linalg_norm u * np_linalg_norm v)
          < vdot u v * vdot u v) by nra.
  nra.
Qed.

Lemma np_linalg_norm_triangle u v :
  np_linalg_norm (vadd u v) <= np_linalg_norm u + np_linalg_norm v.
Proof.
  pose proof (np_linalg_norm_nonneg u) as Hu.
  pose proof (np_linalg_norm_nonneg v) as Hv.
  pose proof (np_linalg_norm_nonneg (vadd u v)) as Huv.
  pose proof (np_linalg_norm_sqr u) as Hu2.
  pose proof (np_linalg_norm_sqr v) as Hv2.
  pose proof (np_linalg_norm_sqr (vadd u v)) as Huv2.
  pose proof (vdot_cauchy_schwarz u v) as Hcs.
  assert (Hex : vdot (vadd u v) (vadd u v) = vdot u u + 2 * vdot u v + vdot v v).
  { destruct u as [[a b] c], v as [[x y] z]. cbn [vadd vdot]. ring. }
  destruct (Rle_dec (np_linalg_norm (vadd u v)) (np_linalg_norm u + np_linalg_norm v))
    as [|Hn]; [assumption|].
  exfalso. apply Rnot_le_lt in Hn. nra.
Qed.

Lemma euclidean_distance_sym p q : euclidean_distance p q = euclidean_distance q p.
Proof. unfold euclidean_distance. f_equal. ring. Qed.

Lemma euclidean_distance_triangle p q c :
  euclidean_distance p q <= euclidean_distance p c + euclidean_distance c q.
Proof.
  rewrite <- !norm_euclidean_distance.
  replace (vsub p q) with (vadd (vsub p c) (vsub c q)).
  - apply np_linalg_norm_triangle.
  - destruct p as [[a b] d], q as [[x y] z], c as [[u v] w]. cbn [vsub vadd].
    f_equal; [f_equal|]; ring.
Qed.

(** ** Point-cloud fusion: what the filter guarantees *)

(** X1.  The fused cloud is a sub-sequence of the concatenated clouds, every point
    of it is within 0.2 of the centroid of all the points, and any two of its
    points are less than 0.4 apart. *)
Theorem fused_cloud_diameter (obj_pcd_pts : list cloud) (fused : cloud) :
  target_obj_pcd_obs obj_pcd_pts = Ok fused ->
  sublist fused (concat obj_pcd_pts) /\
  (forall p, p ∈ fused ->
     euclidean_distance p (centroid (concat obj_pcd_pts)) < 2 / 10) /\
  (forall p q, p ∈ fused -> q ∈ fused -> euclidean_distance p q < 4 / 10).
Proof.
  intros H.
  assert (Hne : obj_pcd_pts <> []) by (intros ->; discriminate H).
  rewrite target_obj_pcd_obs_filter in H by exact Hne. injection H as <-.
  split; [apply sublist_filter|].
  assert (Hin : forall p,
    p ∈ filter (fun p => euclidean_distance p (centroid (concat obj_pcd_pts)) < 2 / 10)
               (concat obj_pcd_pts) ->
    euclidean_distance p (centroid (concat obj_pcd_pts)) < 2 / 10).
  { intros p Hp. apply list_elem_of_filter in Hp as [Hp _]. exact Hp. }
  split; [exact Hin|].
  intros p q Hp Hq. apply Hin in Hp. apply Hin in Hq.
  pose proof (euclidean_distance_triangle p q (centroid (concat obj_pcd_pts))) as Ht.
  rewrite (euclidean_distance_sym (centroid _) q) in Ht. lra.
Qed.

Lemma euclidean_distance_lt p q r :
  0 < r ->
  (p.1.1 - q.1.1) * (p.1.1 - q.1.1) + (p.1.2 - q.1.2) * (p.1.2 - q.1.2)
  + (p.2 - q.2) * (p.2 - q.2) < r * r ->
  euclidean_distance p q < r.
Proof.
  intros Hr H. unfold euclidean_distance.
  rewrite <- (sqrt_square r) by lra. apply sqrt_lt_1_alt. split; [|exact H].
  pose proof (Rle_0_sqr (p.1.1 - q.1.1)) as H1.
  pose proof (Rle_0_sqr (p.1.2 - q.1.2)) as H2.
  pose proof (Rle_0_sqr (p.2 - q.2)) as H3.
  unfold Rsqr in H1, H2, H3. lra.
Qed.

Lemma np_linalg_norm_vscale k v :
  np_linalg_norm (vscale k v) = Rabs k * np_linalg_norm v.
Proof.
  unfold np_linalg_norm.
  replace (vdot (vscale k v) (vscale k v)) with (Rsqr k * vdot v v)
    by (destruct v as [[a b] c]; cbn [vscale vdot]; unfold Rsqr; ring).
  rewrite sqrt_mult by (try apply Rle_0_sqr; apply vdot_self_nonneg).
  rewrite sqrt_Rsqr_abs. reflexivity.
Qed.

Lemma np_linalg_norm_sum (vs : list vec3) :
  np_linalg_norm (foldr vadd (0, 0, 0) vs) <= Rsum (map np_linalg_norm vs).
Proof.
  unfold Rsum. induction vs as [|v vs IH]; cbn [foldr map].
  - unfold np_linalg_norm. cbn [vdot].
    replace (0 * 0 + 0 * 0 + 0 * 0) with 0 by ring. rewrite sqrt_0. lra.
  - pose proof (np_linalg_norm_triangle v (foldr vadd (0, 0, 0) vs)). lra.
Qed.

Lemma Rsum_lt_bound (l : list R) d :
  l <> [] -> (forall x, x ∈ l -> x < d) -> Rsum l < INR (length l) * d.
Proof.
  induction l as [|x l IH]; intros Hne Hall; [contradiction|].
  assert (Hx : x < d) by (apply Hall; left).
  destruct l as [|y l].
  - cbn [Rsum foldr length INR]. lra.
  - assert (Hl : Rsum (y :: l) < INR (length (y :: l)) * d).
    { apply IH; [discriminate|]. intros z Hz. apply Hall. right. exact Hz. }
    change (Rsum (x :: y :: l)) with (x + Rsum (y :: l)).
    change (length (x :: y :: l)) with (S (length (y :: l))).
    rewrite S_INR. lra.
Qed.

Lemma foldr_vadd_vsub p (c : cloud) :
  foldr vadd (0, 0, 0) (map (vsub p) c)
  = vsub (vscale (INR (length c)) p) (foldr vadd (0, 0, 0) c).
Proof.
  induction c as [|q c IH].
  - destruct p as [[a b] d]. cbn [map foldr length INR vscale vsub].
    f_equal; [f_equal|]; ring.
  - change (length (q :: c)) with (S (length c)). rewrite S_INR.
    cbn [map foldr]. rewrite IH.
    destruct p as [[a b] d], q as [[x y] z], (foldr vadd (0, 0, 0) c) as [[u v] w].
    cbn [vscale vsub vadd]. f_equal; [f_equal|]; ring.
Qed.

(** The distance of a point to the mean of a cloud is at most the mean of
    its distances to the points of the cloud. *)
Lemma distance_to_mean p (c : cloud) :
  c <> [] ->
  INR (length c) * np_linalg_norm (vsub p (np_mean c))
  <= Rsum (map (fun q => np_linalg_norm (vsub p q)) c).
Proof.
  intros Hne.
  assert (Hn : 0 < INR (length c)).
  { destruct c; [contradiction|]. apply lt_0_INR. cbn [length]. lia. }
  replace (INR (length c) * np_linalg_norm (vsub p (np_mean c)))
    with (np_linalg_norm (foldr vadd (0, 0, 0) (map (vsub p) c))).
  - rewrite <- (map_map (vsub p) np_linalg_norm). apply np_linalg_norm_sum.
  - rewrite foldr_vadd_vsub. unfold np_mean.
    rewrite <- (Rabs_pos_eq (INR (length c))) at 2 by lra.
    rewrite <- np_linalg_norm_vscale. f_equal.
    destruct p as [[a b] d], (foldr vadd (0, 0, 0) c) as [[u v] w].
    cbn [vscale vsub]. f_equal; [f_equal|]; field; lra.
Qed.

Lemma filter_all {A} (P : A -> Prop) `{!forall x, Decision (P x)} (l : list A) :
  (forall x, x ∈ l -> P x) -> filter P l = l.
Proof.
  induction l as [|a l IH]; intros Hall; [reflexivity|].
  rewrite filter_cons_True by (apply Hall; left).
  f_equal. apply IH. intros x Hx. apply Hall. right. exact Hx.
Qed.

Lemma distance_to_centroid_small (pts : cloud) (p : vec3) :
  pts <> [] ->
  (forall q, q ∈ pts -> euclidean_distance p q < 2 / 10) ->
  euclidean_distance p (centroid pts) < 2 / 10.
Proof.
  intros Hpts Hsmall.
  assert (Hn : 0 < INR (length pts)).
  { destruct pts; [contradiction|]. apply lt_0_INR. cbn [length]. lia. }
  rewrite <- np_mean_centroid, <- norm_euclidean_distance.
  pose proof (distance_to_mean p pts Hpts) as Hm.
  assert (Hs : Rsum (map (fun q => np_linalg_norm (vsub p q)) pts)
               < INR (length pts) * (2 / 10)).
  { rewrite <- (length_map (fun q => np_linalg_norm (vsub p q)) pts).
    apply Rsum_lt_bound.
    - destruct pts; [contradiction|discriminate].
    - intros x Hx. apply list_elem_of_fmap in Hx as (q & -> & Hq).
      rewrite norm_euclidean_distance. apply Hsmall; assumption. }
  nra.
Qed.

(** X2.  An object less than 0.2 across is never cut by the filter: when any two
    points seen by the cameras are less than 0.2 apart, the fused cloud is
    all of them. *)
Theorem small_cloud_kept_whole (obj_pcd_pts : list cloud) :
  obj_pcd_pts <> [] ->
  (forall p q, p ∈ concat obj_pcd_pts -> q ∈ concat obj_pcd_pts ->
     euclidean_distance p q < 2 / 10) ->
  target_obj_pcd_obs obj_pcd_pts = Ok (concat obj_pcd_pts).
Proof.
  intros Hne Hsmall. rewrite target_obj_pcd_obs_filter by exact Hne. f_equal.
  destruct (decide (concat obj_pcd_pts = [])) as [Hnil|Hpts].
  - rewrite Hnil. reflexivity.
  - apply filter_all. intros p Hp.
    apply distance_to_centroid_small; [exact Hpts|].
    intros q Hq. apply Hsmall; assumption.
Qed.

Lemma small_obj_pcd_pts_small p q :
  p ∈ concat small_obj_pcd_pts -> q ∈ concat small_obj_pcd_pts ->
  euclidean_distance p q < 2 / 10.
Proof.
  unfold small_obj_pcd_pts. cbn [concat app]. intros Hp Hq.
  assert (Hcases : forall x : vec3,
            x ∈ [(0, 0, 0); (1 / 10, 0, 0); (0, 1 / 10, 0)] ->
            x = (0, 0, 0) \/ x = (1 / 10, 0, 0) \/ x = (0, 1 / 10, 0)).
  { intros x Hx. repeat (apply elem_of_cons in Hx as [Hx|Hx]; [auto|]).
    apply not_elem_of_nil in Hx. contradiction. }
  destruct (Hcases p Hp) as [->|[->| ->]]; destruct (Hcases q Hq) as [->|[->| ->]];
    apply euclidean_distance_lt; cbn [fst snd]; lra.
Qed.

Lemma small_cloud_kept_whole_witness :
  target_obj_pcd_obs small_obj_pcd_pts = Ok (concat small_obj_pcd_pts).
Proof.
  apply (small_cloud_kept_whole small_obj_pcd_pts).
  - discriminate.
  - exact small_obj_pcd_pts_small.
Defined.

Lemma small_obj_fused :
  target_obj_pcd_obs small_obj_pcd_pts = Ok (concat small_obj_pcd_pts).
Proof.
  rewrite target_obj_pcd_obs_filter by discriminate. f_equal.
  apply filter_all. intros p Hp.
  apply distance_to_centroid_small; [discriminate|].
  intros q Hq. apply small_obj_pcd_pts_small; assumption.
Qed.

Lemma fused_cloud_diameter_witness :
  target_obj_pcd_obs small_obj_pcd_pts = Ok (concat small_obj_pcd_pts) /\
  forall p q, p ∈ concat small_obj_pcd_pts -> q ∈ concat small_obj_pcd_pts ->
    euclidean_distance p q < 4 / 10.
Proof.
  split; [exact small_obj_fused|].
  exact (proj2 (proj2 (fused_cloud_diameter small_obj_pcd_pts
                         (concat small_obj_pcd_pts) small_obj_fused))).
Defined.

(** ** Point-cloud fusion: moving the scene *)

Lemma centroid_translate t (c : cloud) :
  c <> [] -> centroid (map (vadd t) c) = vadd t (centroid c).
Proof.
  intros Hne.
  assert (Hn : INR (length c) <> 0).
  { destruct c; [contradiction|]. apply not_0_INR. discriminate. }
  rewrite <- !np_mean_centroid. unfold np_mean. rewrite length_map.
  assert (Hs : foldr vadd (0, 0, 0) (map (vadd t) c)
               = vadd (vscale (INR (length c)) t) (foldr vadd (0, 0, 0) c)).
  { clear. induction c as [|q c IH].
    - destruct t as [[a b] d]. cbn [map foldr length INR vscale vadd].
      f_equal; [f_equal|]; ring.
    - change (length (q :: c)) with (S (length c)). rewrite S_INR.
      cbn [map foldr]. rewrite IH.
      destruct t as [[a b] d], q as [[x y] z], (foldr vadd (0, 0, 0) c) as [[u v] w].
      cbn [vscale vadd]. f_equal; [f_equal|]; ring. }
  rewrite Hs.
  destruct t as [[a b] d], (foldr vadd (0, 0, 0) c) as [[u v] w].
  cbn [vscale vadd]. f_equal; [f_equal|]; field; exact Hn.
Qed.

Lemma euclidean_distance_translate t p q :
  euclidean_distance (vadd t p) (vadd t q) = euclidean_distance p q.
Proof.
  destruct t as [[a b] d], p as [[x y] z], q as [[u v] w].
  unfold euclidean_distance. cbn [vadd fst snd]. f_equal. ring.
Qed.

Lemma filter_map_commute {A B} (f : A -> B) (P : B -> Prop) (Q : A -> Prop)
    `{!forall x, Decision (P x), !forall x, Decision (Q x)} (l : list A) :
  (forall x, x ∈ l -> P (f x) <-> Q x) ->
  filter P (map f l) = map f (filter Q l).
Proof.
  induction l as [|a l IH]; intros Hiff; [reflexivity|]. cbn [map].
  assert (Ha : P (f a) <-> Q a) by (apply Hiff; left).
  assert (Hl : filter P (map f l) = map f (filter Q l))
    by (apply IH; intros x Hx; apply Hiff; right; exact Hx).
  destruct (decide (Q a)) as [Hq|Hq].
  - rewrite !filter_cons_True by tauto. cbn [map]. rewrite Hl. reflexivity.
  - rewrite !filter_cons_False by tauto. exact Hl.
Qed.

(** X3.  Fusion commutes with translations: moving every observed point by the
    same vector moves the fused cloud by that vector, and keeps or drops the
    same points. *)
Theorem fusion_translation_invariant (t : vec3) (obj_pcd_pts : list cloud) fused :
  target_obj_pcd_obs obj_pcd_pts = Ok fused ->
  target_obj_pcd_obs (map (map (vadd t)) obj_pcd_pts) = Ok (map (vadd t) fused).
Proof.
  intros H.
  assert (Hne : obj_pcd_pts <> []) by (intros ->; discriminate H).
  rewrite target_obj_pcd_obs_filter in H by exact Hne. injection H as <-.
  rewrite target_obj_pcd_obs_filter by (destruct obj_pcd_pts; [contradiction|discriminate]).
  f_equal. rewrite <- concat_map.
  destruct (decide (concat obj_pcd_pts = [])) as [->|Hc]; [reflexivity|].
  apply filter_map_commute. intros p _.
  rewrite centroid_translate by exact Hc.
  rewrite euclidean_distance_translate. reflexivity.
Qed.

Lemma fusion_translation_invariant_witness :
  target_obj_pcd_obs small_obj_pcd_pts = Ok (concat small_obj_pcd_pts) /\
  target_obj_pcd_obs (map (map (vadd (1, 2, 3))) small_obj_pcd_pts)
  = Ok (map (vadd (1, 2, 3)) (concat small_obj_pcd_pts)).
Proof.
  split; [exact small_obj_fused|].
  exact (fusion_translation_invariant (1, 2, 3) small_obj_pcd_pts
           (concat small_obj_pcd_pts) small_obj_fused).
Defined.

(** ** Point-cloud fusion: where the points come from *)

Lemma obj_pts_elem_of cam obj_id p :
  p ∈ obj_pts cam obj_id ->
  exists i, flat_seg cam !! i = Some obj_id /\ pts_raw cam !! i = Some p.
Proof.
  unfold obj_pts. intros Hp.
  apply list_elem_of_fmap in Hp as ([sid q] & -> & Hq).
  apply list_elem_of_filter in Hq as [Hid Hq]. cbn [fst snd] in *. subst sid.
  apply list_elem_of_lookup in Hq as [i Hi].
  exists i. apply lookup_zip_with_Some in Hi as (x & y & Hxy & Hx & Hy).
  injection Hxy as <- <-. split; assumption.
Qed.

(** X4.  The fusion of an object's observations raises exactly when there is no
    camera, and then it is a [ValueError]; otherwise every fused point is the
    point of a pixel that some camera labels with the object's id, and lies
    in the crop bound. *)
Theorem fusion_sources E (cams : list CamObs) (obj_id : Z) :
  (cams = [] ->
   target_obj_pcd_obs (pc_obs_info_pcd_pts E cams obj_id) = Raise ValueError) /\
  (cams <> [] ->
   exists fused,
     target_obj_pcd_obs (pc_obs_info_pcd_pts E cams obj_id) = Ok fused /\
     forall p, p ∈ fused ->
       crop_bound E p = true /\
       exists cam i,
         cam ∈ cams /\ flat_seg cam !! i = Some obj_id /\ pts_raw cam !! i = Some p).
Proof.
  split; [intros ->; reflexivity|].
  intros Hne. eexists. split.
  { apply target_obj_pcd_obs_filter. destruct cams; [contradiction|discriminate]. }
  intros p Hp. apply list_elem_of_filter in Hp as [_ Hp].
  apply list_elem_of_In, in_concat in Hp as (c & Hc & Hpc).
  apply list_elem_of_In in Hc. apply list_elem_of_In in Hpc.
  unfold pc_obs_info_pcd_pts in Hc.
  apply list_elem_of_fmap in Hc as (cam & -> & Hcam).
  unfold crop_pcd in Hpc. apply list_elem_of_filter in Hpc as [Hb Hpc].
  split; [exact Hb|].
  apply obj_pts_elem_of in Hpc as (i & Hs & Hr).
  exists cam, i. repeat split; assumption.
Qed.

(** ** The table's points *)

Lemma every_lookup {A} (gap wait : nat) (a : list A) (i : nat) :
  every gap wait a !! i = a !! (wait + i * S gap)%nat.
Proof.
  revert wait i. induction a as [|x a IH]; intros wait i; [reflexivity|].
  destruct wait as [|wait]; cbn [every].
  - destruct i as [|i]; [reflexivity|].
    cbn [lookup list_lookup]. rewrite IH.
    replace (0 + S i * S gap)%nat with (S (gap + i * S gap)) by lia.
    reflexivity.
  - rewrite IH. reflexivity.
Qed.

Lemma every_length {A} (gap wait : nat) (a : list A) :
  (length a <= wait + length (every gap wait a) * S gap)%nat /\
  (forall n, length (every gap wait a) = S n ->
     wait + n * S gap < length a)%nat.
Proof.
  revert wait. induction a as [|x a IH]; intros wait.
  - cbn [every length]. split; [lia | discriminate].
  - destruct wait as [|wait]; cbn [every length].
    + destruct (IH gap) as [H1 H2]. split; [lia|].
      intros n Hn. injection Hn as Hn. destruct n as [|n]; [lia|].
      specialize (H2 n). lia.
    + destruct (IH wait) as [H1 H2]. split; [lia|].
      intros n Hn. specialize (H2 n Hn). lia.
Qed.

(** X5.  The table's points of a camera: with fewer than 500 table pixels the
    step of the slice is zero and a [ValueError] is raised; otherwise the
    [i]-th kept point is the table pixel number [i * (n / 500)], and between
    500 and 999 points are kept. *)
Theorem table_pts_bounds (cam : CamObs) (table_id : Z) :
  let table := map snd (filter (fun sp => sp.1 = table_id)
                               (zip (flat_seg cam) (pts_raw cam))) in
  let n := length table in
  ((n < 500)%nat -> table_pts cam table_id = Raise ValueError) /\
  ((500 <= n)%nat ->
   exists pts,
     table_pts cam table_id = Ok pts /\
     (500 <= length pts <= 999)%nat /\
     forall i, pts !! i = table !! (i * (n / 500))%nat).
Proof.
  intros table n. unfold table_pts. fold table. fold n. split.
  - intros Hn. rewrite Nat.div_small by exact Hn. reflexivity.
  - intros Hn.
    pose proof (Nat.div_mod_eq n 500) as Hdm.
    pose proof (Nat.mod_upper_bound n 500 ltac:(discriminate)) as Hr.
    destruct (n / 500)%nat as [|gap] eqn:Hq; [lia|].
    cbn [np_step_slice]. eexists. split; [reflexivity|].
    destruct (every_length gap 0 table) as [H1 H2]. fold n in H1, H2.
    split; [|intros i; apply every_lookup].
    split.
    + nia.
    + destruct (length (every gap 0 table)) as [|m] eqn:Hm; [lia|].
      specialize (H2 m eq_refl). nia.
Qed.

(** ** Rotations *)

Lemma matmul3_assoc A B C : matmul3 (matmul3 A B) C = matmul3 A (matmul3 B C).
Proof. destruct A, B, C. mat_unfold. f_equal; ring. Qed.

Lemma matmul3_eye3_l A : matmul3 eye3 A = A.
Proof. destruct A. mat_unfold. f_equal; ring. Qed.

Lemma matmul3_eye3_r A : matmul3 A eye3 = A.
Proof. destruct A. mat_unfold. f_equal; ring. Qed.

Lemma transpose3_matmul3 A B :
  transpose3 (matmul3 A B) = matmul3 (transpose3 B) (transpose3 A).
Proof. destruct A, B. mat_unfold. f_equal; ring. Qed.

Lemma transpose3_involutive A : transpose3 (transpose3 A) = A.
Proof. destruct A. reflexivity. Qed.

Lemma det3_matmul3 A B : det3 (matmul3 A B) = det3 A * det3 B.
Proof. destruct A, B. mat_unfold. ring. Qed.

Lemma det3_transpose3 A : det3 (transpose3 A) = det3 A.
Proof. destruct A. mat_unfold. ring. Qed.

Lemma rot_of_pose_mat pos r : rot_of (pose_mat pos r) = r.
Proof. destruct pos as [[x y] z], r. reflexivity. Qed.

Lemma rot_of_matmul A B :
  homogeneous B -> rot_of (matmul A B) = matmul3 (rot_of A) (rot_of B).
Proof.
  destruct A, B; intros (H0 & H1 & H2 & _); simpl in H0, H1, H2; subst.
  mat_unfold. f_equal; ring.
Qed.

Lemma pose_mat_matmul a b :
  matmul (pose_mat (0, 0, 0) a) (pose_mat (0, 0, 0) b)
  = pose_mat (0, 0, 0) (matmul3 a b).
Proof. destruct a, b. mat_unfold. f_equal; ring. Qed.

Lemma pose_mat_eye3 : pose_mat (0, 0, 0) eye3 = eye4.
Proof. reflexivity. Qed.

(** A left inverse of a rotation is a right inverse. *)
Lemma rotation_transpose_r r : rotation r -> matmul3 r (transpose3 r) = eye3.
Proof.
  intros [Ho Hd].
  set (M := pose_mat (0, 0, 0) r). set (N := pose_mat (0, 0, 0) (transpose3 r)).
  assert (HM : det4 M <> 0).
  { unfold M. change (pose_mat (0, 0, 0) r) with (matrix_from_pose (Pose (0, 0, 0) r)).
    apply rigid_det4, rigid_matrix_from_pose. split; assumption. }
  assert (HNM : matmul N M = eye4).
  { unfold N, M. rewrite pose_mat_matmul, Ho. apply pose_mat_eye3. }
  assert (HN : N = invert M).
  { rewrite <- (matmul_eye_r N), <- (matmul_invert_r M HM), <- matmul_assoc, HNM.
    apply matmul_eye_l. }
  pose proof (matmul_invert_r M HM) as H. rewrite <- HN in H.
  unfold M, N in H. rewrite pose_mat_matmul in H.
  apply (f_equal rot_of) in H. rewrite rot_of_pose_mat in H. exact H.
Qed.

Lemma rotation_transpose3 r : rotation r -> rotation (transpose3 r).
Proof.
  intros Hr. split.
  - rewrite transpose3_involutive. apply rotation_transpose_r, Hr.
  - rewrite det3_transpose3. apply Hr.
Qed.

Lemma rotation_matmul3 a b : rotation a -> rotation b -> rotation (matmul3 a b).
Proof.
  intros [Ha Hda] [Hb Hdb]. split.
  - rewrite transpose3_matmul3, matmul3_assoc, <- (matmul3_assoc (transpose3 a)).
    rewrite Ha, matmul3_eye3_l. exact Hb.
  - rewrite det3_matmul3, Hda, Hdb. ring.
Qed.

(** The rotation block of the inverse of a rigid transform is the transpose. *)
Lemma rot_of_invert_rigid M : rigid M -> rot_of (invert M) = transpose3 (rot_of M).
Proof.
  intros HM. pose proof (rigid_det4 M HM) as Hd. destruct HM as [Hh Hr].
  pose proof (matmul_invert_l M Hd) as H.
  apply (f_equal rot_of) in H.
  rewrite rot_of_matmul in H by exact Hh.
  change (rot_of eye4) with eye3 in H.
  rewrite <- (matmul3_eye3_r (rot_of (invert M))).
  rewrite <- (rotation_transpose_r (rot_of M) Hr), <- matmul3_assoc, H.
  apply matmul3_eye3_l.
Qed.

Lemma rigid_matmul A B : rigid A -> rigid B -> rigid (matmul A B).
Proof.
  intros [HA Ha] [HB Hb]. split; [apply homogeneous_matmul; assumption|].
  rewrite rot_of_matmul by exact HB. apply rotation_matmul3; assumption.
Qed.

Lemma rigid_invert M : rigid M -> rigid (invert M).
Proof.
  intros HM. split.
  - apply homogeneous_invert; [apply rigid_det4, HM | apply HM].
  - rewrite rot_of_invert_rigid by exact HM. apply rotation_transpose3, HM.
Qed.

Lemma transform_point_pos_of U A :
  homogeneous A -> transform_point U (pos_of A) = pos_of (matmul U A).
Proof.
  destruct U, A; intros (_ & _ & _ & H3); simpl in H3; subst.
  unfold transform_point. mat_unfold. f_equal; [f_equal|]; ring.
Qed.

(** ** Placement composer: the upright correction *)

(** X6.  The upright correction [U] of lines 701-702 is a rigid motion that turns
    the parent about its own origin: it maps the parent's start pose to the
    upright pose, leaves the parent's position where it is, turns by
    [up * R^T], and is the identity when the parent is loaded upright. *)
Theorem upright_correction_pivot (Sp : pose) (up : mat3) :
  valid_pose Sp -> rotation up ->
  exists U,
    relative_upright_pose_mat (matrix_from_pose Sp) up = Ok U /\
    rigid U /\
    matmul U (matrix_from_pose Sp) = matrix_from_pose (Pose (position Sp) up) /\
    rot_of U = matmul3 up (transpose3 (orientation Sp)) /\
    transform_point U (position Sp) = position Sp /\
    (orientation Sp = up -> U = eye4).
Proof.
  intros HSp Hup.
  pose proof (rigid_matrix_from_pose Sp HSp) as Hrig.
  pose proof (rigid_det4 _ Hrig) as Hd.
  assert (HUp : rigid (upright_parent_pose_mat (matrix_from_pose Sp) up)).
  { rewrite upright_parent_pose_mat_pose. apply rigid_matrix_from_pose. exact Hup. }
  set (U := matmul (upright_parent_pose_mat (matrix_from_pose Sp) up)
                   (invert (matrix_from_pose Sp))).
  exists U. split.
  { unfold relative_upright_pose_mat. rewrite np_linalg_inv_ok by exact Hd.
    reflexivity. }
  assert (HU : matmul U (matrix_from_pose Sp)
               = matrix_from_pose (Pose (position Sp) up)).
  { unfold U. rewrite matmul_assoc, matmul_invert_l, matmul_eye_r by exact Hd.
    apply upright_parent_pose_mat_pose. }
  split; [apply rigid_matmul; [exact HUp | apply rigid_invert, Hrig]|].
  split; [exact HU|]. split; [|split].
  - unfold U.
    rewrite rot_of_matmul by (apply homogeneous_invert; [exact Hd | apply Hrig]).
    rewrite rot_of_invert_rigid by exact Hrig.
    rewrite upright_parent_pose_mat_pose, !rot_of_matrix_from_pose. reflexivity.
  - pose proof (transform_point_pos_of U (matrix_from_pose Sp)
                  (homogeneous_matrix_from_pose Sp)) as Ht.
    rewrite HU, !pos_of_matrix_from_pose in Ht. exact Ht.
  - intros <-. unfold U. rewrite upright_parent_pose_mat_pose.
    replace (Pose (position Sp) (orientation Sp)) with Sp by (destruct Sp; reflexivity).
    apply matmul_invert_r, Hd.
Qed.

Lemma upright_correction_pivot_witness :
  valid_pose tilted_parent_pose /\ rotation eye3 /\
  exists U,
    relative_upright_pose_mat (matrix_from_pose tilted_parent_pose) eye3 = Ok U /\
    transform_point U (position tilted_parent_pose) = position tilted_parent_pose.
Proof.
  split; [exact tilted_parent_pose_valid|]. split; [exact rotation_eye3|].
  destruct (upright_correction_pivot tilted_parent_pose eye3
              tilted_parent_pose_valid rotation_eye3)
    as (U & HU & _ & _ & _ & Hp & _).
  exists U. split; assumption.
Defined.

(** ** Placement composer: a parent that is not loaded in any pose *)

(** X7.  When the parent is not loaded with ['any_pose'], the composer leaves it
    alone: the child's final pose is the proposed transform applied to its
    start pose, the parent's recorded final pose is where the simulator has
    the parent after the pause of line 693, and only the child is moved. *)
Theorem placement_composer_fixed_parent E s pc_master Sp Sc up Rel pl :
  load_pose_type (parent pc_master) <> "any_pose"%string ->
  placement_composer E s pc_master Sp Sc up Rel = Ok pl ->
  let parent_obj_id := pb_obj_id (parent pc_master) in
  let child_obj_id := pb_obj_id (child pc_master) in
  pl_final_child_pose_mat pl = matmul Rel (matrix_from_pose Sc) /\
  body_state (time_sleep E s) !! parent_obj_id = Some (pl_final_parent_pose pl) /\
  body_state (pl_sim pl)
  = <[child_obj_id := pose_from_matrix (matmul Rel (matrix_from_pose Sc))]>
      (body_state (time_sleep E s)) /\
  step_sim (pl_sim pl) = true /\
  constraints (pl_sim pl) = constraints s.
Proof.
  intros Hany H. cbv zeta. unfold placement_composer in H.
  destruct (decide (load_pose_type (parent pc_master) = "any_pose"%string))
    as [Heq|_]; [contradiction|].
  cbn [mret result_ret mbind result_bind] in H.
  inv_bind H as fpp Hfpp. inv_bind H as s2 Hs2.
  cbn [mret result_ret] in H. injection H as <-.
  cbn [pl_final_child_pose pl_final_child_pose_mat pl_sim pl_final_parent_pose].
  apply reset_body_inv in Hs2 as [_ ->].
  cbn [body_state step_sim constraints set_step_sim pose_from_matrix position orientation].
  unfold get_body_state in Hfpp. cbn [body_state set_step_sim] in Hfpp.
  destruct (body_state (time_sleep E s) !! pb_obj_id (parent pc_master)) as [p|] eqn:Hp;
    [|discriminate].
  cbn [of_option] in Hfpp. injection Hfpp as <-.
  repeat split.
  unfold time_sleep. destruct (step_sim s); reflexivity.
Qed.

Lemma easy_parent_not_any_pose :
  load_pose_type (parent (pc_master_dict easy_args easy_scene)) <> "any_pose"%string.
Proof. discriminate. Qed.

Lemma easy_composer_returns :
  exists pl,
    placement_composer demo_collaborators easy_sim
      (pc_master_dict easy_args easy_scene)
      unit_pose (Pose (0, 0, 1 / 10) eye3) eye3 eye4 = Ok pl.
Proof.
  apply placement_composer_ok.
  - exists unit_pose. exact demo_bodies_parent.
  - eexists. exact demo_bodies_child.
  - intros H. exfalso. exact (easy_parent_not_any_pose H).
Qed.

Lemma placement_composer_fixed_parent_witness :
  exists pl,
    placement_composer demo_collaborators easy_sim
      (pc_master_dict easy_args easy_scene)
      unit_pose (Pose (0, 0, 1 / 10) eye3) eye3 eye4 = Ok pl /\
    pl_final_child_pose_mat pl
    = matmul eye4 (matrix_from_pose (Pose (0, 0, 1 / 10) eye3)) /\
    step_sim (pl_sim pl) = true.
Proof.
  destruct easy_composer_returns as [pl Hpl].
  destruct (placement_composer_fixed_parent demo_collaborators easy_sim
              (pc_master_dict easy_args easy_scene)
              unit_pose (Pose (0, 0, 1 / 10) eye3) eye3 eye4 pl
              easy_parent_not_any_pose Hpl) as (Hm & _ & _ & Hs & _).
  exists pl. repeat split; assumption.
Defined.

Lemma reset_body_missing s obj_id pos ori :
  ~ has_body s obj_id -> reset_body s obj_id pos ori = Raise PybulletError.
Proof.
  intros H. unfold reset_body.
  destruct (body_state s !! obj_id) as [p|] eqn:Hp; [|reflexivity].
  exfalso. apply H. exists p. exact Hp.
Qed.

Lemma get_body_state_missing s obj_id :
  ~ has_body s obj_id -> get_body_state s obj_id = Raise PybulletError.
Proof.
  intros H. unfold get_body_state.
  destruct (body_state s !! obj_id) as [p|] eqn:Hp; [|reflexivity].
  exfalso. apply H. exists p. exact Hp.
Qed.

(** X8.  How the composer ends: a [LinAlgError] when the parent is loaded with
    ['any_pose'] and its start pose matrix is singular, whatever the
    simulator holds; otherwise a [PybulletError] when the parent or the child
    is not a body of the simulator after the pause of line 693; otherwise it
    returns. *)
Theorem placement_composer_outcome E s pc_master Sp Sc up Rel :
  let s0 := time_sleep E s in
  let singular :=
    load_pose_type (parent pc_master) = "any_pose"%string /\
    det4 (matrix_from_pose Sp) = 0 in
  (singular ->
   placement_composer E s pc_master Sp Sc up Rel = Raise LinAlgError) /\
  (~ singular ->
   ~ (has_body s0 (pb_obj_id (parent pc_master)) /\
      has_body s0 (pb_obj_id (child pc_master))) ->
   placement_composer E s pc_master Sp Sc up Rel = Raise PybulletError) /\
  (~ singular ->
   has_body s0 (pb_obj_id (parent pc_master)) ->
   has_body s0 (pb_obj_id (child pc_master)) ->
   exists pl, placement_composer E s pc_master Sp Sc up Rel = Ok pl).
Proof.
  cbv zeta. split; [|split].
  - intros [Hany Hd]. unfold placement_composer.
    destruct (decide (load_pose_type (parent pc_master) = "any_pose"%string))
      as [_|Hn]; [|contradiction].
    unfold relative_upright_pose_mat, np_linalg_inv.
    destruct (decide (det4 (matrix_from_pose Sp) = 0)) as [_|Hn]; [|contradiction].
    reflexivity.
  - intros Hns Hb. unfold placement_composer.
    set (s1 := set_step_sim (time_sleep E s) true).
    assert (Hs1 : forall j, has_body s1 j <-> has_body (time_sleep E s) j)
      by (intros j; apply has_body_set_step_sim).
    destruct (decide (has_body (time_sleep E s) (pb_obj_id (parent pc_master))))
      as [Hp|Hp].
    + assert (Hc : ~ has_body (time_sleep E s) (pb_obj_id (child pc_master)))
        by (intros Hc; apply Hb; split; assumption).
      destruct (decide (load_pose_type (parent pc_master) = "any_pose"%string))
        as [Hany|Hany].
      * unfold relative_upright_pose_mat, np_linalg_inv.
        destruct (decide (det4 (matrix_from_pose Sp) = 0)) as [Hd|Hd];
          [exfalso; apply Hns; split; assumption|].
        cbn [mbind result_bind mret result_ret].
        rewrite reset_body_ok by (apply Hs1, Hp).
        cbn [mbind result_bind mret result_ret].
        unfold get_body_state at 1. cbn [body_state].
        rewrite lookup_insert_eq. cbn [of_option mbind result_bind].
        rewrite reset_body_missing; [reflexivity|].
        intros [q Hq]. cbn [body_state] in Hq.
        destruct (decide (pb_obj_id (parent pc_master) = pb_obj_id (child pc_master)))
          as [Heq|Hne].
        -- apply Hc. rewrite <- Heq. exact Hp.
        -- rewrite lookup_insert_ne in Hq by exact Hne.
           apply Hc. exists q. exact Hq.
      * cbn [mbind result_bind mret result_ret].
        destruct Hp as [p Hp].
        rewrite (get_body_state_ok s1 _ p) by exact Hp.
        cbn [mbind result_bind].
        rewrite reset_body_missing; [reflexivity|]. intros H. apply Hc, Hs1, H.
    + destruct (decide (load_pose_type (parent pc_master) = "any_pose"%string))
        as [Hany|Hany].
      * unfold relative_upright_pose_mat, np_linalg_inv.
        destruct (decide (det4 (matrix_from_pose Sp) = 0)) as [Hd|Hd];
          [exfalso; apply Hns; split; assumption|].
        cbn [mbind result_bind mret result_ret].
        rewrite reset_body_missing; [reflexivity|]. intros H. apply Hp, Hs1, H.
      * cbn [mbind result_bind mret result_ret].
        rewrite get_body_state_missing; [reflexivity|]. intros H. apply Hp, Hs1, H.
  - intros Hns Hp Hc. apply placement_composer_ok; [exact Hp | exact Hc |].
    intros Hany Hd. apply Hns. split; assumption.
Qed.

(** ** Stability stress test: the scene the engine is released on *)

(** X9.  When the engine is released for the upside-down check (line 806) the
    parent stands at the upside-down pose and is pinned there by a new
    constraint, the child stands at the pose derived for it, every other body
    is where it was, and the contacts are read after the pause that follows. *)
Theorem stress_test_release_state E s pc_master Sp Sc up Fc st :
  stress_test E s pc_master Sp Sc up Fc = Ok st ->
  pb_obj_id (parent pc_master) <> pb_obj_id (child pc_master) ->
  let parent_obj_id := pb_obj_id (parent pc_master) in
  let child_obj_id := pb_obj_id (child pc_master) in
  let ud := pose_from_matrix (upside_down_pose_mat Sp up) in
  exists s0,
    st_sim st = time_sleep E s0 /\
    step_sim s0 = false /\
    body_state s0 !! parent_obj_id = Some ud /\
    body_state s0 !! child_obj_id = Some (st_final_child_pose_upside_down st) /\
    (forall j, j <> parent_obj_id -> j <> child_obj_id ->
       body_state s0 !! j = body_state s !! j) /\
    constraints s0 !! next_cid s = Some (parent_obj_id, ud) /\
    next_cid s0 = (next_cid s + 1)%Z /\
    st_ud_obj_surf_contacts st
    = getContactPoints E (time_sleep E s0) parent_obj_id child_obj_id.
Proof.
  unfold stress_test. intros H Hne. cbv zeta.
  inv_bind H as s1 Hs1. inv_bind H as s2 Hs2. inv_bind H as s3 Hs3.
  inv_bind H as fcp Hfcp. inv_bind H as fcud Hfcud. inv_bind H as s4 Hs4.
  cbn [mret result_ret] in H. injection H as <-.
  cbn [st_upside_down_pose_mat st_final_child_pose_parent
       st_final_child_pose_upside_down st_sim st_ud_obj_surf_contacts].
  exists (set_step_sim s4 false).
  split; [reflexivity|]. split; [reflexivity|].
  destruct fcud as [fpos fori].
  apply reset_body_inv in Hs1 as [_ ->].
  apply reset_body_inv in Hs2 as [_ ->].
  apply reset_body_inv in Hs3 as [_ ->].
  apply reset_body_inv in Hs4 as [_ ->].
  cbn [set_step_sim body_state constraints next_cid step_sim collision_off
       constraint_obj_world fst snd pose_from_matrix position orientation].
  rewrite !next_cid_safeRemoveConstraint.
  cbn [set_step_sim body_state constraints next_cid step_sim collision_off].
  assert (Hb : forall c1 c2,
             body_state (safeRemoveConstraint
                           (safeRemoveConstraint (set_step_sim s true) c1) c2)
             = body_state s) by (intros [?|] [?|]; reflexivity).
  rewrite Hb.
  split; [|split; [|split; [|split; [|split]]]].
  - rewrite lookup_insert_ne by (intros Heq; apply Hne; symmetry; exact Heq).
    apply lookup_insert_eq.
  - apply lookup_insert_eq.
  - intros j Hjp Hjc.
    rewrite lookup_insert_ne by (intros Heq; apply Hjc; symmetry; exact Heq).
    rewrite lookup_insert_ne by (intros Heq; apply Hjp; symmetry; exact Heq).
    rewrite lookup_insert_ne by (intros Heq; apply Hjc; symmetry; exact Heq).
    rewrite lookup_insert_ne by (intros Heq; apply Hjp; symmetry; exact Heq).
    reflexivity.
  - apply lookup_insert_eq.
  - reflexivity.
  - reflexivity.
Qed.

Lemma easy_stress_returns :
  exists st,
    stress_test demo_collaborators easy_sim (pc_master_dict easy_args easy_scene)
      unit_pose (Pose (0, 0, 1 / 10) eye3) eye3 eye4 = Ok st.
Proof.
  apply stress_test_ok.
  - intros ? ? ?. eexists; reflexivity.
  - exists unit_pose. exact demo_bodies_parent.
  - eexists. exact demo_bodies_child.
Qed.

Lemma easy_ids_differ :
  pb_obj_id (parent (pc_master_dict easy_args easy_scene))
  <> pb_obj_id (child (pc_master_dict easy_args easy_scene)).
Proof. discriminate. Qed.

Lemma stress_test_release_state_witness :
  exists st s0,
    stress_test demo_collaborators easy_sim (pc_master_dict easy_args easy_scene)
      unit_pose (Pose (0, 0, 1 / 10) eye3) eye3 eye4 = Ok st /\
    st_sim st = time_sleep demo_collaborators s0 /\
    body_state s0 !! 1%Z = Some (pose_from_matrix (upside_down_pose_mat unit_pose eye3)).
Proof.
  destruct easy_stress_returns as [st Hst].
  destruct (stress_test_release_state demo_collaborators easy_sim
              (pc_master_dict easy_args easy_scene)
              unit_pose (Pose (0, 0, 1 / 10) eye3) eye3 eye4 st Hst easy_ids_differ)
    as (s0 & Hs & _ & Hp & _).
  exists st, s0. repeat split; assumption.
Defined.

(** ** Stability stress test: the upside-down pose as a motion *)

(** X10.  The upside-down pose of lines 778-780 is a rigid pose that loses nothing
    when it is turned into a pose list and back; it places every point of the
    parent where the upright pose at the start position would, mirrored in
    [y] and [z] about that position (a half turn about the world's x axis
    through it) and raised by 0.15; turning upside down twice gives the
    upright orientation again. *)
Theorem upside_down_pose_half_turn (Sp : pose) (up : mat3) :
  rotation up ->
  let UD := upside_down_pose_mat Sp up in
  rigid UD /\
  matrix_from_pose (pose_from_matrix UD) = UD /\
  upside_down_ori_mat (upside_down_ori_mat up) = up /\
  forall v : vec3,
    let '(px, py, pz) := position Sp in
    let '(x, y, z) := transform_point (matrix_from_pose (Pose (position Sp) up)) v in
    transform_point UD v = (x, 2 * py - y, 2 * pz - z + 15 / 100).
Proof.
  intros Hup. cbv zeta.
  assert (Hh : homogeneous (upside_down_pose_mat Sp up)).
  { destruct Sp as [[[px py] pz] r]. unfold homogeneous. mat_unfold.
    cbv [upside_down_pose_mat add_z set_pos set_rot eye4 build position
         m30 m31 m32 m33]. repeat split; reflexivity. }
  assert (Hr : rot_of (upside_down_pose_mat Sp up) = matmul3 (rot_x PI) up).
  { destruct Sp as [[[px py] pz] r]. unfold upside_down_pose_mat, upside_down_ori_mat.
    rewrite euler2rot_roll. cbn [position].
    destruct (matmul3 (rot_x PI) up). reflexivity. }
  split; [|split; [|split]].
  - split; [exact Hh|]. rewrite Hr. apply rotation_matmul3; [apply rotation_rot_x | exact Hup].
  - apply matrix_from_pose_from_matrix, Hh.
  - unfold upside_down_ori_mat. rewrite euler2rot_roll, rot_x_PI.
    destruct up. mat_unfold. f_equal; ring.
  - intros [[vx vy] vz]. destruct Sp as [[[px py] pz] r]. cbn [position].
    unfold upside_down_pose_mat, upside_down_ori_mat.
    rewrite euler2rot_roll, rot_x_PI. destruct up.
    unfold transform_point. mat_unfold.
    cbv [upside_down_pose_mat add_z set_pos set_rot eye4 build position
         m00 m01 m02 m03 m10 m11 m12 m13 m20 m21 m22 m23].
    f_equal; [f_equal|]; ring.
Qed.

Lemma upside_down_pose_half_turn_witness :
  rotation eye3 /\ rigid (upside_down_pose_mat cx1_start_parent_pose eye3).
Proof.
  split; [exact rotation_eye3|].
  exact (proj1 (upside_down_pose_half_turn cx1_start_parent_pose eye3 rotation_eye3)).
Defined.

Lemma easy_completes :
  exists w' t,
    main_iteration demo_collaborators easy_args easy_scene 0 easy_world = Ok (w', t).
Proof.
  apply main_iteration_completes.
  - discriminate.
  - exact demo_physics_keeps.
  - intros ? ? ? ? ? ? ? ?. eexists; reflexivity.
  - intros ? ? ?. eexists; reflexivity.
  - exists unit_pose. exact demo_bodies_parent.
  - eexists. exact demo_bodies_child.
  - eexists; reflexivity.
  - discriminate.
Qed.

(** ** Outcome evaluator: the bottle criterion as a bound on the tilt *)

Lemma rotation_r21_bound r : rotation r -> -1 <= r21 r <= 1.
Proof.
  intros [Ho _]. destruct r as [a b c d e f g h i].
  apply (f_equal r11) in Ho. mat_unfold_in Ho. cbn [r21].
  pose proof (Rle_0_sqr b) as Hb. pose proof (Rle_0_sqr e) as He.
  pose proof (Rle_0_sqr (h - 1)) as H1. pose proof (Rle_0_sqr (h + 1)) as H2.
  unfold Rsqr in *. split; nra.
Qed.

Lemma acos_lt_iff x t :
  -1 <= x <= 1 -> 0 <= t <= PI -> (acos x < t <-> cos t < x).
Proof.
  intros Hx Ht. pose proof (acos_bound x) as Ha.
  pose proof (cos_acos x Hx) as Hc.
  split; intros H.
  - rewrite <- Hc. apply cos_decreasing_1; lra.
  - destruct (Rlt_le_dec (acos x) t) as [Hlt|Hle]; [exact Hlt|].
    exfalso. pose proof (cos_decr_1 t (acos x)) as Hd. lra.
Qed.

(** X11.  For a bottle whose orientation is a rotation, and a threshold between 0
    and pi, [bottle_upright] holds exactly when the vertical component of the
    bottle's y axis exceeds the cosine of the threshold: a bottle lying on
    its side or pointing down is never upright, one standing straight is
    upright for every positive threshold. *)
Theorem bottle_upright_cosine (args : Args) (bottle_final_pose : pose) :
  valid_pose bottle_final_pose ->
  0 <= upright_ori_diff_thresh args <= PI ->
  let up_z := r21 (orientation bottle_final_pose) in
  (bottle_upright args bottle_final_pose = true
   <-> cos (upright_ori_diff_thresh args) < up_z) /\
  (upright_ori_diff_thresh args <= PI / 2 -> up_z <= 0 ->
   bottle_upright args bottle_final_pose = false) /\
  (0 < upright_ori_diff_thresh args -> up_z = 1 ->
   bottle_upright args bottle_final_pose = true).
Proof.
  intros Hp Ht. cbv zeta.
  pose proof (rotation_r21_bound _ Hp) as Hb.
  assert (Hiff : bottle_upright args bottle_final_pose = true
                 <-> cos (upright_ori_diff_thresh args) < r21 (orientation bottle_final_pose)).
  { unfold bottle_upright. rewrite bool_decide_eq_true.
    rewrite angle_from_upright_valid_pose by exact Hp.
    apply acos_lt_iff; assumption. }
  split; [exact Hiff|]. split.
  - intros Hhalf Hz. apply not_true_is_false. intros Htrue. apply Hiff in Htrue.
    assert (0 <= cos (upright_ori_diff_thresh args)).
    { apply cos_ge_0; pose proof PI_RGT_0; lra. }
    lra.
  - intros Hpos Hz. apply Hiff. rewrite Hz, <- cos_0.
    apply cos_decreasing_1; lra.
Qed.

Lemma default_thresh_bounds :
  0 <= upright_ori_diff_thresh demo_args <= PI.
Proof.
  cbn [upright_ori_diff_thresh demo_args].
  unfold default_upright_ori_diff_thresh, np_deg2rad.
  pose proof PI_RGT_0. split; lra.
Qed.

Lemma bottle_upright_cosine_witness :
  valid_pose unit_pose /\
  0 <= upright_ori_diff_thresh demo_args <= PI /\
  (bottle_upright demo_args unit_pose = true
   <-> cos (upright_ori_diff_thresh demo_args) < r21 (orientation unit_pose)).
Proof.
  split; [exact rotation_eye3|]. split; [exact default_thresh_bounds|].
  exact (proj1 (bottle_upright_cosine demo_args unit_pose rotation_eye3
                  default_thresh_bounds)).
Defined.

(** ** Outcome evaluator: success in terms of the contacts *)

(** X12.  A trial succeeds exactly when the child touches the parent after the
    placement has settled, no contact is left once the parent is upside down
    and, for a bottle in a box container, the bottle criterion holds. *)
Theorem place_success_closed_form E args sc iteration w w' t :
  main_iteration E args sc iteration w = Ok (w', t) ->
  (t_place_success t = true <->
   t_obj_surf_contacts t <> [] /\
   t_ud_obj_surf_contacts t = [] /\
   ((parent_class args = "box_container" /\ child_class args = "bottle")%string ->
    dict_get (t_success_crit_dict t) "bottle_upright" = Some true)).
Proof.
  intros H. apply main_iteration_inv in H. cbv zeta in H.
  destruct H as (ppcd & cpcd & Sc & Sp & up & Rel & parts & pl & d & contacts & st
                 & _ & _ & _ & _ & _ & _ & _ & Hev & _ & -> & _ & _).
  cbn [t_place_success t_obj_surf_contacts t_ud_obj_surf_contacts t_success_crit_dict].
  apply first_evaluation_inv in Hev as [_ Hd].
  assert (Ht : forall c : list Contact, touching c = true <-> c <> []).
  { intros c. rewrite <- touching_false. destruct (touching c); split; congruence. }
  destruct Hd as [[Hbb (bfp & _ & ->)] | [Hnb ->]].
  - cbn [dict_set dict_get dict_values map np_all forallb String.eqb Ascii.eqb
         Bool.eqb andb].
    cbn.
    rewrite !andb_true_iff, negb_true_iff, touching_false, Ht.
    split.
    + intros [Hc [Hu [Hf _]]]. repeat split; try assumption.
      intros _. rewrite Hu. reflexivity.
    + intros [Hc [Hf Hu]]. specialize (Hu Hbb). injection Hu as Hu.
      repeat split; assumption.
  - cbn.
    rewrite !andb_true_iff, negb_true_iff, touching_false, Ht.
    split.
    + intros [Hc [Hf _]]. repeat split; try assumption.
      intros Hbb. contradiction.
    + intros [Hc [Hf _]]. repeat split; assumption.
Qed.

Lemma place_success_closed_form_witness :
  exists w' t,
    main_iteration demo_collaborators easy_args easy_scene 0 easy_world = Ok (w', t) /\
    (t_place_success t = true <->
     t_obj_surf_contacts t <> [] /\
     t_ud_obj_surf_contacts t = [] /\
     ((parent_class easy_args = "box_container" /\ child_class easy_args = "bottle")%string ->
      dict_get (t_success_crit_dict t) "bottle_upright" = Some true)).
Proof.
  destruct easy_completes as (w' & t & H).
  exists w', t. split; [exact H|].
  exact (place_success_closed_form demo_collaborators easy_args easy_scene 0
           easy_world w' t H).
Defined.

(** ** The end of a trial *)

(** X13.  A trial that runs to its end leaves neither object in the simulator, and
    leaves the engine running in real time. *)
Theorem trial_removes_objects E args sc iteration w w' t :
  main_iteration E args sc iteration w = Ok (w', t) ->
  let pc_master := pc_master_dict args sc in
  body_state (sim w') !! pb_obj_id (parent pc_master) = None /\
  body_state (sim w') !! pb_obj_id (child pc_master) = None /\
  step_sim (sim w') = false.
Proof.
  intros H. cbv zeta. unfold main_iteration in H.
  repeat (let a := fresh "a" in let Ha := fresh "Ha" in
          apply bind_Ok in H; destruct H as (a & Ha & H);
          try match type of H with context [let '(_, _) := ?x in _] => destruct x end).
  cbn [mret result_ret] in H. injection H as <- _. cbn [sim].
  match goal with
  | Hst : stress_test _ _ _ _ _ _ _ = Ok ?st |- _ =>
      apply stress_test_inv in Hst as (_ & _ & _ & s' & Hs & _); rewrite Hs
  end.
  unfold remove_body. cbn [body_state step_sim].
  split; [|split].
  - destruct (decide (pb_obj_id (parent (pc_master_dict args sc))
                      = pb_obj_id (child (pc_master_dict args sc)))) as [->|Hne].
    + apply lookup_delete_eq.
    + rewrite lookup_delete_ne by (intros Heq; apply Hne; symmetry; exact Heq).
      apply lookup_delete_eq.
  - apply lookup_delete_eq.
  - unfold time_sleep. cbn [step_sim set_step_sim]. cbn [step_sim]. reflexivity.
Qed.

Lemma trial_removes_objects_witness :
  exists w' t,
    main_iteration demo_collaborators easy_args easy_scene 0 easy_world = Ok (w', t) /\
    body_state (sim w') !! 1%Z = None /\
    body_state (sim w') !! 2%Z = None.
Proof.
  destruct easy_completes as (w' & t & H).
  destruct (trial_removes_objects demo_collaborators easy_args easy_scene 0
              easy_world w' t H) as (Hp & Hc & _).
  exists w', t. repeat split; assumption.
Defined.

(** ** Between the placement and its evaluation *)

(** X14.  The composer hands over a simulator that waits for explicit steps; the
    steps of lines 714-730 then move nothing before the engine is released:
    the engine starts from the bodies as the composer placed them, with the
    child no longer colliding with the table and with the constraints of the
    two objects released, except for a synthetic rack of the classes named
    on lines 714 and 716. *)
Theorem settle_for_evaluation_state E pc_master sc s :
  step_sim s = true ->
  let racks := ["syn_rack_easy"; "syn_rack_med"]%string in
  exists s0,
    settle_for_evaluation E pc_master sc s = time_sleep E s0 /\
    body_state (settle_for_evaluation E pc_master sc s) = physics E s0 /\
    step_sim s0 = false /\
    body_state s0 = body_state s /\
    (pb_obj_id (child pc_master), table_id sc) ∈ collision_off s0 /\
    (forall c, o_cid (parent pc_master) = Some c ->
       obj_class (parent pc_master) ∉ racks -> constraints s0 !! c = None) /\
    (forall c, o_cid (child pc_master) = Some c ->
       obj_class (child pc_master) ∉ racks -> constraints s0 !! c = None) /\
    (obj_class (parent pc_master) ∈ racks -> obj_class (child pc_master) ∈ racks ->
     constraints s0 = constraints s).
Proof.
  intros Hstep. cbv zeta. unfold settle_for_evaluation.
  set (s1 := if decide (obj_class (parent pc_master)
                        ∈ ["syn_rack_easy"; "syn_rack_med"]%string)
             then s else safeRemoveConstraint s (o_cid (parent pc_master))).
  set (s2 := if decide (obj_class (child pc_master)
                        ∈ ["syn_rack_easy"; "syn_rack_med"]%string)
             then s1 else safeRemoveConstraint s1 (o_cid (child pc_master))).
  assert (H1 : step_sim s1 = true /\ body_state s1 = body_state s).
  { unfold s1. case_decide; [split; [exact Hstep|reflexivity]|].
    destruct (o_cid (parent pc_master)); split; first [exact Hstep | reflexivity]. }
  assert (H2 : step_sim s2 = true /\ body_state s2 = body_state s).
  { unfold s2. case_decide; [exact H1|].
    destruct (o_cid (child pc_master)); exact H1. }
  destruct H2 as [Hst2 Hb2].
  set (s3 := safeCollisionFilterPair_off s2 (pb_obj_id (child pc_master)) (table_id sc)).
  assert (Hsleep : time_sleep E s3 = s3).
  { unfold time_sleep. replace (step_sim s3) with true by (symmetry; exact Hst2).
    reflexivity. }
  rewrite Hsleep. exists (set_step_sim s3 false).
  split; [reflexivity|]. split; [reflexivity|]. split; [reflexivity|].
  split; [exact Hb2|]. split; [left|].
  cbn [set_step_sim constraints safeCollisionFilterPair_off s3].
  split; [|split].
  - intros c Hc Hn. unfold s2, s1.
    destruct (decide (obj_class (parent pc_master)
                      ∈ ["syn_rack_easy"; "syn_rack_med"]%string)); [contradiction|].
    rewrite Hc.
    case_decide; [cbn [safeRemoveConstraint constraints]; apply lookup_delete_eq|].
    destruct (o_cid (child pc_master)) as [c'|];
      cbn [safeRemoveConstraint constraints]; [|apply lookup_delete_eq].
    destruct (decide (c' = c)) as [->|Hne]; [apply lookup_delete_eq|].
    rewrite lookup_delete_ne by exact Hne. apply lookup_delete_eq.
  - intros c Hc Hn. unfold s2.
    destruct (decide (obj_class (child pc_master)
                      ∈ ["syn_rack_easy"; "syn_rack_med"]%string)); [contradiction|].
    rewrite Hc. cbn [safeRemoveConstraint constraints]. apply lookup_delete_eq.
  - intros Hp Hc. unfold s2, s1.
    destruct (decide (obj_class (child pc_master)
                      ∈ ["syn_rack_easy"; "syn_rack_med"]%string)); [|contradiction].
    destruct (decide (obj_class (parent pc_master)
                      ∈ ["syn_rack_easy"; "syn_rack_med"]%string)); [|contradiction].
    reflexivity.
Qed.

Lemma settle_for_evaluation_state_witness :
  exists s0,
    settle_for_evaluation demo_collaborators (pc_master_dict easy_args easy_scene)
      easy_scene (set_step_sim easy_sim true) = time_sleep demo_collaborators s0 /\
    step_sim s0 = false /\
    body_state s0 = body_state (set_step_sim easy_sim true).
Proof.
  destruct (settle_for_evaluation_state demo_collaborators
              (pc_master_dict easy_args easy_scene) easy_scene
              (set_step_sim easy_sim true) eq_refl)
    as (s0 & Hs & _ & Hst & Hb & _).
  exists s0. repeat split; assumption.
Defined.

(** ** How a trial fails *)

(** X15.  The first failures of a trial, in the order the code meets them: no
    camera is a [ValueError]; when every camera sees enough of the table for
    the slice of line 604, a child or a parent that is not a body of the
    simulator is a [PybulletError]; then a parent class without an upright
    orientation is a [KeyError]; then an exception of the relation proposer
    is the trial's own. *)
Theorem main_iteration_first_failure E args sc iteration w :
  let pc_master := pc_master_dict args sc in
  let cams := cams_observe E (sim w) in
  let table_seen :=
    forall cam, cam ∈ cams -> exists pts, table_pts cam (table_id sc) = Ok pts in
  (cams = [] -> main_iteration E args sc iteration w = Raise ValueError) /\
  (cams <> [] -> table_seen ->
   ~ (has_body (sim w) (pb_obj_id (child pc_master)) /\
      has_body (sim w) (pb_obj_id (parent pc_master))) ->
   main_iteration E args sc iteration w = Raise PybulletError) /\
  (cams <> [] -> table_seen ->
   has_body (sim w) (pb_obj_id (child pc_master)) ->
   has_body (sim w) (pb_obj_id (parent pc_master)) ->
   dict_get upright_orientation_dict (parent_class args) = None ->
   main_iteration E args sc iteration w = Raise KeyError) /\
  (forall upright e,
     cams <> [] -> table_seen ->
     has_body (sim w) (pb_obj_id (child pc_master)) ->
     has_body (sim w) (pb_obj_id (parent pc_master)) ->
     dict_get upright_orientation_dict (parent_class args) = Some upright ->
     (forall ppcd cpcd pf cf pp cp ps cs,
        infer_relation_task E ppcd cpcd pf cf pp cp ps cs = Raise e) ->
     main_iteration E args sc iteration w = Raise e).
Proof.
  cbv zeta.
  assert (Hfuse : forall obj_id, cams_observe E (sim w) <> [] ->
            exists c, target_obj_pcd_obs
                        (pc_obs_info_pcd_pts E (cams_observe E (sim w)) obj_id) = Ok c).
  { intros obj_id Hne. eexists. apply target_obj_pcd_obs_filter.
    destruct (cams_observe E (sim w)); [contradiction|discriminate]. }
  split; [|split; [|split]].
  - intros Hc. unfold main_iteration. rewrite Hc. reflexivity.
  - intros Hne _ Hb. unfold main_iteration.
    destruct (Hfuse (pb_obj_id (parent (pc_master_dict args sc))) Hne) as [c1 ->].
    destruct (Hfuse (pb_obj_id (child (pc_master_dict args sc))) Hne) as [c2 ->].
    cbn [mbind result_bind].
    destruct (decide (has_body (sim w) (pb_obj_id (child (pc_master_dict args sc)))))
      as [[pc_ Hc]|Hc].
    + rewrite (get_body_state_ok _ _ _ Hc). cbn [mbind result_bind].
      rewrite (get_body_state_missing (sim w)
                 (pb_obj_id (parent (pc_master_dict args sc)))); [reflexivity|].
      intros Hp. apply Hb. split; [eexists; exact Hc | exact Hp].
    + rewrite (get_body_state_missing (sim w)
                 (pb_obj_id (child (pc_master_dict args sc))) Hc).
      reflexivity.
  - intros Hne _ [pc_ Hc] [pp Hp] Hup. unfold main_iteration.
    destruct (Hfuse (pb_obj_id (parent (pc_master_dict args sc))) Hne) as [c1 ->].
    destruct (Hfuse (pb_obj_id (child (pc_master_dict args sc))) Hne) as [c2 ->].
    cbn [mbind result_bind].
    rewrite (get_body_state_ok _ _ _ Hc). cbn [mbind result_bind].
    rewrite (get_body_state_ok _ _ _ Hp). cbn [mbind result_bind].
    cbn [obj_class pc_master_dict parent]. rewrite Hup. reflexivity.
  - intros upright e Hne _ [pc_ Hc] [pp Hp] Hup Hprop. unfold main_iteration.
    destruct (Hfuse (pb_obj_id (parent (pc_master_dict args sc))) Hne) as [c1 ->].
    destruct (Hfuse (pb_obj_id (child (pc_master_dict args sc))) Hne) as [c2 ->].
    cbn [mbind result_bind].
    rewrite (get_body_state_ok _ _ _ Hc). cbn [mbind result_bind].
    rewrite (get_body_state_ok _ _ _ Hp). cbn [mbind result_bind].
    cbn [obj_class pc_master_dict parent]. rewrite Hup.
    cbn [of_option mbind result_bind]. rewrite Hprop. reflexivity.
Qed.

(** ** The running success rate *)

Lemma py_sum_bounds l : 0 <= py_sum l <= INR (length l).
Proof.
  induction l as [|b l IH].
  - cbn. lra.
  - change (length (b :: l)) with (S (length l)). rewrite S_INR.
    cbn [py_sum foldr]. fold (py_sum l). destruct b; lra.
Qed.

Lemma py_sum_all l : py_sum l = INR (length l) <-> Forall (fun b => b = true) l.
Proof.
  induction l as [|b l IH].
  - cbn. split; [constructor | reflexivity].
  - change (length (b :: l)) with (S (length l)). rewrite S_INR.
    cbn [py_sum foldr]. fold (py_sum l).
    pose proof (py_sum_bounds l) as Hb. rewrite Forall_cons. destruct b.
    + split.
      * intros H. split; [reflexivity|]. apply IH. lra.
      * intros [_ H]. apply IH in H. lra.
    + split; [intros H; lra | intros [H _]; discriminate].
Qed.

(** X16.  After a trial the success rate is defined: the list is not empty, the
    rate lies between 0 and 1, and it is 1 exactly when every trial so far
    has succeeded. *)
Theorem success_rate_after_trial E args sc iteration w w' t :
  main_iteration E args sc iteration w = Ok (w', t) ->
  exists rate,
    current_success_rate (place_success_list w') = Some rate /\
    0 <= rate <= 1 /\
    (rate = 1 <-> Forall (fun b => b = true) (place_success_list w')).
Proof.
  intros H. apply main_iteration_inv in H. cbv zeta in H.
  destruct H as (? & ? & ? & ? & ? & ? & ? & ? & ? & ? & ? & H).
  destruct H as (_ & _ & _ & _ & _ & _ & _ & _ & _ & _ & Hl & _).
  set (l := place_success_list w') in *.
  assert (Hlen : (0 < length l)%nat).
  { rewrite Hl, length_app. cbn [length]. lia. }
  assert (Hn : 0 < INR (length l)) by (apply lt_0_INR; exact Hlen).
  unfold current_success_rate.
  destruct (decide (length l = 0%nat)) as [Hz|_]; [lia|].
  eexists. split; [reflexivity|].
  pose proof (py_sum_bounds l) as Hb.
  split; [split|].
  - apply Rmult_le_pos; [apply Hb | left; apply Rinv_0_lt_compat; exact Hn].
  - apply (Rmult_le_reg_r (INR (length l))); [exact Hn|].
    unfold Rdiv. rewrite Rmult_assoc, Rinv_l by lra. lra.
  - rewrite <- py_sum_all. split; intros Hr.
    + apply (f_equal (fun x => x * INR (length l))) in Hr.
      unfold Rdiv in Hr. rewrite Rmult_assoc, Rinv_l in Hr by lra. lra.
    + rewrite Hr. field. lra.
Qed.

Lemma success_rate_after_trial_witness :
  exists w' t rate,
    main_iteration demo_collaborators easy_args easy_scene 0 easy_world = Ok (w', t) /\
    current_success_rate (place_success_list w') = Some rate /\
    0 <= rate <= 1.
Proof.
  destruct easy_completes as (w' & t & H).
  destruct (success_rate_after_trial demo_collaborators easy_args easy_scene 0
              easy_world w' t H) as (rate & Hr & Hb & _).
  exists w', t, rate. repeat split; try assumption; apply Hb.
Defined.

(** ** The trial loop: what a run leaves behind *)

Lemma trials_bookkeeping E args its w w' :
  trials E args its w = Ok w' ->
  exists flags new,
    place_success_list w' = place_success_list w ++ flags /\
    length flags = length its /\
    demo_aug_dir w' = demo_aug_dir w ++ new /\
    map fst new = map fst (filter (fun x : Z * bool => x.2 = true) (zip its flags)) /\
    Forall (fun r : Z * aug_save_dict => success r.2 = true) new.
Proof.
  revert w. induction its as [|it its IH]; intros w H; cbn [trials] in H.
  - injection H as <-. exists [], []. rewrite !app_nil_r.
    repeat split; constructor.
  - destruct (load_objects E it (sim w)) as [sc s].
    inv_bind H as r Hr. destruct r as [w1 t1].
    apply IH in H as (flags & new & Hl & Hlen & Hd & Hidx & Hall).
    apply main_iteration_inv in Hr.
    destruct Hr as (? & ? & ? & ? & ? & ? & ? & ? & ? & ? & ? & Hr).
    destruct Hr as (_ & _ & _ & _ & _ & _ & _ & _ & _ & _ & Hl1 & Hd1).
    cbn [place_success_list demo_aug_dir] in Hl1, Hd1.
    exists (t_place_success t1 :: flags).
    exists ((if t_place_success t1 then [(it, save_dict args sc t1)] else []) ++ new).
    split; [rewrite Hl, Hl1, <- app_assoc; reflexivity|].
    split; [cbn [length]; rewrite Hlen; reflexivity|].
    split; [rewrite Hd, Hd1; destruct (t_place_success t1);
            rewrite <- ?app_assoc, ?app_nil_r; reflexivity|].
    cbn [zip zip_with]. destruct (t_place_success t1) eqn:Hs.
    + rewrite filter_cons_True by reflexivity. cbn [app map fst].
      split; [rewrite Hidx; reflexivity|].
      constructor; [exact Hs | exact Hall].
    + rewrite filter_cons_False by (cbn; discriminate). cbn [app].
      split; [exact Hidx | exact Hall].
Qed.

(** X17.  A run that reaches the end of the loop has made one trial for each index
    from [start_iteration] up to [num_iterations] (none when the range is
    empty), has appended one success flag per trial, and has saved one
    demonstration for each successful trial and no other, under the index of
    that trial: the saved indices lie in the range and no two are the same. *)
Theorem main_loop_bookkeeping E args w w' :
  main_loop E args w = Ok w' ->
  let its := seqZ (start_iteration args) (num_iterations args - start_iteration args) in
  exists flags new,
    place_success_list w' = place_success_list w ++ flags /\
    length flags = Z.to_nat (num_iterations args - start_iteration args) /\
    demo_aug_dir w' = demo_aug_dir w ++ new /\
    map fst new = map fst (filter (fun x : Z * bool => x.2 = true) (zip its flags)) /\
    Forall (fun r : Z * aug_save_dict => success r.2 = true) new /\
    Forall (fun i => (start_iteration args <= i < num_iterations args)%Z) (map fst new) /\
    NoDup (map fst new) /\
    ((num_iterations args <= start_iteration args)%Z -> w' = w).
Proof.
  unfold main_loop. intros H. cbv zeta.
  pose proof H as H0.
  apply trials_bookkeeping in H as (flags & new & Hl & Hlen & Hd & Hidx & Hall).
  rewrite length_seqZ in Hlen.
  exists flags, new.
  assert (Hsub : sublist (map fst new)
                   (seqZ (start_iteration args)
                         (num_iterations args - start_iteration args))).
  { rewrite Hidx.
    rewrite <- (fst_zip (seqZ (start_iteration args)
                              (num_iterations args - start_iteration args)) flags)
      at 2 by (rewrite length_seqZ; lia).
    apply fmap_sublist, sublist_filter. }
  repeat split; try assumption.
  - apply Forall_forall. intros i Hi.
    assert (Hin : i ∈ seqZ (start_iteration args)
                         (num_iterations args - start_iteration args)).
    { eapply elem_of_sublist; [exact Hi | exact Hsub]. }
    apply elem_of_seqZ in Hin. lia.
  - eapply sublist_NoDup; [apply NoDup_seqZ | exact Hsub].
  - intros Hle. rewrite seqZ_nil in H0 by lia. cbn [trials] in H0.
    injection H0 as <-. reflexivity.
Qed.

Lemma easy_trial_completes iteration w :
  sim w = easy_sim ->
  exists w' t,
    main_iteration easy_collaborators easy_loop_args easy_scene iteration w = Ok (w', t).
Proof.
  intros Hs. apply main_iteration_completes.
  - discriminate.
  - intros s obj_id H. exact H.
  - intros ? ? ? ? ? ? ? ?. eexists; reflexivity.
  - intros ? ? ?. eexists; reflexivity.
  - rewrite Hs. exists unit_pose. exact demo_bodies_parent.
  - rewrite Hs. eexists. exact demo_bodies_child.
  - eexists; reflexivity.
  - discriminate.
Qed.

Lemma trials_cons E args it its w :
  trials E args (it :: its) w
  = (let '(sc, s) := load_objects E it (sim w) in
     '(w, _) ← main_iteration E args sc it
                 (MkWorld s (place_success_list w) (demo_aug_dir w));
     trials E args its w).
Proof. reflexivity. Qed.

Lemma easy_loop_range :
  seqZ (start_iteration easy_loop_args)
       (num_iterations easy_loop_args - start_iteration easy_loop_args)
  = [3%Z; 4%Z].
Proof. reflexivity. Qed.

Lemma easy_loop_completes :
  exists w', main_loop easy_collaborators easy_loop_args easy_world = Ok w'.
Proof.
  unfold main_loop. rewrite easy_loop_range.
  destruct (easy_trial_completes 3
              (MkWorld easy_sim (place_success_list easy_world)
                       (demo_aug_dir easy_world)) eq_refl) as (w1 & t1 & H1).
  destruct (easy_trial_completes 4
              (MkWorld easy_sim (place_success_list w1) (demo_aug_dir w1)) eq_refl)
    as (w2 & t2 & H2).
  exists w2.
  rewrite trials_cons.
  change (load_objects easy_collaborators 3 (sim easy_world))
    with (easy_scene, easy_sim).
  cbv iota beta. rewrite H1. cbn [mbind result_bind].
  rewrite trials_cons.
  change (load_objects easy_collaborators 4 (sim w1)) with (easy_scene, easy_sim).
  cbv iota beta. rewrite H2. reflexivity.
Qed.

Lemma main_loop_bookkeeping_witness :
  exists w' flags,
    main_loop easy_collaborators easy_loop_args easy_world = Ok w' /\
    place_success_list w' = place_success_list easy_world ++ flags /\
    length flags = 2%nat.
Proof.
  destruct easy_loop_completes as [w' H].
  destruct (main_loop_bookkeeping easy_collaborators easy_loop_args easy_world w' H)
    as (flags & new & Hl & Hlen & _).
  exists w', flags. repeat split; assumption.
Defined.

(** ** Trial setup *)

Lemma scale_hl_classes cls :
  is_Some (scale_hl cls)
  <-> cls ∈ ["mug"; "bowl"; "bottle"; "syn_rack_easy"; "box_container"]%string.
Proof.
  unfold scale_hl. rewrite !elem_of_cons, elem_of_nil.
  repeat case_decide; subst; split; intros Hx;
    try (eexists; reflexivity); try tauto; try (destruct Hx as [? Hx]; discriminate).
Qed.

Lemma scale_default_classes cls : is_Some (scale_default cls) <-> is_Some (scale_hl cls).
Proof.
  unfold scale_default, scale_hl.
  repeat case_decide; split; intros Hx; try (eexists; reflexivity);
    destruct Hx as [? Hx]; discriminate.
Qed.

Lemma scale_classes_upright cls :
  is_Some (scale_hl cls) -> is_Some (dict_get upright_orientation_dict cls).
Proof.
  rewrite scale_hl_classes, !elem_of_cons, elem_of_nil.
  intros [->|[->|[->|[->|[->|[]]]]]]; eexists; reflexivity.
Qed.

Lemma sample_mesh_scale_returns cls is_parent nps rms sd :
  is_Some (scale_hl cls) ->
  exists ms, sample_mesh_scale cls is_parent nps rms sd = Ok ms.
Proof.
  intros Hs. destruct (proj2 (scale_default_classes cls) Hs) as [dflt Hd].
  destruct Hs as [[h l] Hhl]. unfold sample_mesh_scale. rewrite Hhl, Hd.
  destruct is_parent, nps, rms; eexists; reflexivity.
Qed.

Lemma sample_mesh_scale_raises cls is_parent nps rms sd :
  ~ is_Some (scale_hl cls) ->
  sample_mesh_scale cls is_parent nps rms sd = Raise KeyError.
Proof.
  intros Hs. unfold sample_mesh_scale.
  destruct (scale_hl cls) as [hl|]; [|reflexivity].
  exfalso. apply Hs. eexists. reflexivity.
Qed.

Lemma start_pose_returns cls lpt is_parent table_z pd rand_yaw :
  is_Some (dict_get upright_orientation_dict cls) -> lpt <> "demo_pose"%string ->
  exists p, start_pose cls lpt is_parent table_z pd rand_yaw = Ok p.
Proof.
  intros [up Hup] Hd. unfold start_pose. rewrite Hup.
  cbn [of_option mbind result_bind xhl]. destruct (yhl is_parent) as [yh yl].
  destruct (rpy pd) as [[r0 r1] r2].
  repeat case_decide; try contradiction; eexists; reflexivity.
Qed.

Lemma start_pose_demo_pose cls is_parent table_z pd rand_yaw :
  start_pose cls "demo_pose" is_parent table_z pd rand_yaw = Raise KeyError.
Proof.
  unfold start_pose.
  destruct (dict_get upright_orientation_dict cls) as [up|]; [|reflexivity].
  cbn [of_option mbind result_bind xhl]. destruct (yhl is_parent) as [yh yl].
  destruct (decide ("demo_pose"%string = "any_pose"%string)) as [Hx|_]; [discriminate|].
  destruct (decide ("demo_pose"%string = "demo_pose"%string)) as [_|Hx];
    [reflexivity | contradiction].
Qed.

(** X18.  The setup of an object raises nothing but a [KeyError], and it returns
    exactly when the class is one of the five that have a scale range and
    the load pose type is not ['demo_pose']: the classes ['rack'],
    ['syn_rack_hard'] and ['cuboid'] and the default load pose type all
    end the run in the first trial. *)
Theorem object_setup_key_errors cls lpt is_parent nps rms table_z sd pd rand_yaw :
  ((exists r, object_setup cls lpt is_parent nps rms table_z sd pd rand_yaw = Ok r)
   <-> cls ∈ ["mug"; "bowl"; "bottle"; "syn_rack_easy"; "box_container"]%string /\
       lpt <> "demo_pose"%string) /\
  (forall e, object_setup cls lpt is_parent nps rms table_z sd pd rand_yaw = Raise e ->
             e = KeyError) /\
  (cls ∈ ["rack"; "syn_rack_hard"; "cuboid"]%string \/ lpt = "demo_pose"%string ->
   object_setup cls lpt is_parent nps rms table_z sd pd rand_yaw = Raise KeyError).
Proof.
  assert (Hcases :
    (is_Some (scale_hl cls) /\ lpt <> "demo_pose"%string /\
     exists r, object_setup cls lpt is_parent nps rms table_z sd pd rand_yaw = Ok r)
    \/ ((~ is_Some (scale_hl cls) \/ lpt = "demo_pose"%string) /\
        object_setup cls lpt is_parent nps rms table_z sd pd rand_yaw = Raise KeyError)).
  { unfold object_setup.
    destruct (decide (is_Some (scale_hl cls))) as [Hs|Hs].
    - destruct (sample_mesh_scale_returns cls is_parent nps rms sd Hs) as [ms ->].
      cbn [mbind result_bind].
      destruct (decide (lpt = "demo_pose"%string)) as [->|Hdemo].
      + right. split; [right; reflexivity|].
        rewrite start_pose_demo_pose. reflexivity.
      + left. split; [exact Hs|]. split; [exact Hdemo|].
        destruct (start_pose_returns cls lpt is_parent table_z pd rand_yaw
                    (scale_classes_upright cls Hs) Hdemo) as [p ->].
        eexists. reflexivity.
    - right. split; [left; exact Hs|].
      rewrite sample_mesh_scale_raises by exact Hs. reflexivity. }
  split; [|split].
  - rewrite <- scale_hl_classes. split.
    + intros [r Hr]. destruct Hcases as [(Hs & Hd & _)|[_ He]]; [tauto|congruence].
    + intros [Hs Hd]. destruct Hcases as [(_ & _ & Hr)|[[Hn|Hn] _]]; tauto.
  - intros e He. destruct Hcases as [(_ & _ & [r Hr])|[_ Hk]]; congruence.
  - intros Hbad. destruct Hcases as [(Hs & Hd & _)|[_ Hk]]; [|exact Hk].
    exfalso. destruct Hbad as [Hc|Hl]; [|contradiction].
    apply scale_hl_classes in Hs. revert Hs Hc.
    rewrite !elem_of_cons, !elem_of_nil.
    intros [->|[->|[->|[->|[->|[]]]]]] [Hc|[Hc|[Hc|[]]]]; discriminate.
Qed.





(** ** Trial setup: a container large enough for the bottle *)

(** X20.  When the bottle is wider than three quarters of the container's narrow
    side, both measured at the default scales, the new scale times that side
    (the side of the rescaled container, the default scale of a box
    container being 1) is between 1.5 and 2 times the bottle's widest extent,
    so that the size test of line 424 would no longer fire; the new scale is
    the parent's mesh scale unless [rand_mesh_scale] is set, in which case
    it is not used at all. *)
Theorem new_parent_scale_fits parent_class child_class container_extents bottle_extents u n :
  0 < np_min2 container_extents -> 0 <= u < 1 ->
  new_parent_scale parent_class child_class container_extents bottle_extents u = Some n ->
  parent_class = "box_container"%string /\ child_class = "bottle"%string /\
  15 / 10 * np_max3 bottle_extents <= n * np_min2 container_extents
    < 2 * np_max3 bottle_extents /\
  ~ 75 / 100 * (n * np_min2 container_extents) < np_max3 bottle_extents /\
  (forall sd, sample_mesh_scale parent_class true (Some n) false sd = Ok (n, n, n)) /\
  (forall sd, sample_mesh_scale parent_class true (Some n) true sd
              = sample_mesh_scale parent_class true None true sd).
Proof.
  intros Hm Hu H. unfold new_parent_scale in H.
  destruct (decide (parent_class = "box_container"%string /\ child_class = "bottle"%string))
    as [[-> ->]|]; [|discriminate].
  destruct (decide (75 / 100 * np_min2 container_extents < np_max3 bottle_extents))
    as [Hbig|]; [|discriminate].
  injection H as <-.
  set (b := np_max3 bottle_extents) in *. set (m := np_min2 container_extents) in *.
  assert (Hb : 0 < b) by nra.
  assert (Hn : b * (u * (2 - 15 / 10) + 15 / 10) / m * m
               = b * (u * (2 - 15 / 10) + 15 / 10)) by (field; lra).
  split; [reflexivity|]. split; [reflexivity|].
  split; [rewrite Hn; split; nra|].
  split; [rewrite Hn; nra|].
  split; intros sd; reflexivity.
Qed.

Lemma new_parent_scale_fits_witness :
  exists n,
    new_parent_scale "box_container" "bottle" (1 / 10, 2 / 10, 0) (1 / 10, 1 / 10, 0)
                     (1 / 2) = Some n /\
    15 / 10 * np_max3 (1 / 10, 1 / 10, 0) <= n * np_min2 (1 / 10, 2 / 10, 0)
      < 2 * np_max3 (1 / 10, 1 / 10, 0).
Proof.
  assert (Hmin : np_min2 (1 / 10, 2 / 10, 0) = 1 / 10).
  { unfold np_min2. cbn [fst snd]. apply Rmin_left. lra. }
  assert (Hmax : np_max3 (1 / 10, 1 / 10, 0) = 1 / 10).
  { unfold np_max3. cbn [fst snd]. rewrite (Rmax_left (1 / 10) (1 / 10)) by lra.
    apply Rmax_left. lra. }
  assert (Hm : 0 < np_min2 (1 / 10, 2 / 10, 0)) by (rewrite Hmin; lra).
  assert (Hu : 0 <= 1 / 2 < 1) by lra.
  assert (Hs : exists n,
             new_parent_scale "box_container" "bottle" (1 / 10, 2 / 10, 0)
                              (1 / 10, 1 / 10, 0) (1 / 2) = Some n).
  { unfold new_parent_scale.
    destruct (decide ("box_container"%string = "box_container"%string
                      /\ "bottle"%string = "bottle"%string)) as [_|Hx];
      [|exfalso; apply Hx; split; reflexivity].
    destruct (decide (75 / 100 * np_min2 (1 / 10, 2 / 10, 0)
                      < np_max3 (1 / 10, 1 / 10, 0))) as [_|Hx];
      [eexists; reflexivity|].
    exfalso. apply Hx. rewrite Hmin, Hmax. lra. }
  destruct Hs as [n Hn]. exists n. split; [exact Hn|].
  exact (proj1 (proj2 (proj2 (new_parent_scale_fits "box_container" "bottle"
                                (1 / 10, 2 / 10, 0) (1 / 10, 1 / 10, 0) (1 / 2) n
                                Hm Hu Hn)))).
Defined.

(** ** Trial setup: where the objects are loaded *)

Lemma rotation_rot_y a : rotation (rot_y a).
Proof.
  pose proof (sin2_cos2 a) as H. unfold Rsqr in H.
  unfold rot_y. split; mat_unfold; [f_equal; try ring; lra | lra].
Qed.

Lemma rotation_rot_z a : rotation (rot_z a).
Proof.
  pose proof (sin2_cos2 a) as H. unfold Rsqr in H.
  unfold rot_z. split; mat_unfold; [f_equal; try ring; lra | lra].
Qed.

Lemma rotation_euler2rot a b c : rotation (euler2rot a b c).
Proof.
  unfold euler2rot. apply rotation_matmul3; [apply rotation_rot_z|].
  apply rotation_matmul3; [apply rotation_rot_y | apply rotation_rot_x].
Qed.

Lemma rotation_upright_orientation cls up :
  dict_get upright_orientation_dict cls = Some up -> rotation up.
Proof.
  intros H. apply upright_orientation_dict_values in H as [->| ->]; apply rotation_rot_x.
Qed.

(** X21.  An object that is loaded is placed, before the random turn about the
    vertical, on the table height with [x] in [0.3, 0.4) and [y] in
    [0.2, 0.25) for the parent and [-0.25, -0.2) for the child, so that the
    two are more than 0.4 apart; its orientation is a rotation, the upright
    one of its class unless the load pose type is ['any_pose']. *)
Theorem start_pose_in_range cls lpt is_parent table_z pd rand_yaw p :
  0 <= ux pd < 1 -> 0 <= uy pd < 1 ->
  start_pose cls lpt is_parent table_z pd rand_yaw = Ok p ->
  exists p0,
    p = rand_yaw p0 /\
    3 / 10 <= (position p0).1.1 < 4 / 10 /\
    (if is_parent then 2 / 10 <= (position p0).1.2 < 25 / 100
     else - (25 / 100) <= (position p0).1.2 < - (2 / 10)) /\
    (position p0).2 = table_z /\
    valid_pose p0 /\
    (lpt <> "any_pose"%string ->
     dict_get upright_orientation_dict cls = Some (orientation p0)).
Proof.
  intros Hx Hy H. unfold start_pose in H.
  destruct (dict_get upright_orientation_dict cls) as [up|] eqn:Hup; [|discriminate].
  cbn [of_option mbind result_bind xhl] in H.
  assert (Hyr : if is_parent
                then 2 / 10 <= uy pd * ((yhl is_parent).1 - (yhl is_parent).2)
                                + (yhl is_parent).2 < 25 / 100
                else - (25 / 100) <= uy pd * ((yhl is_parent).1 - (yhl is_parent).2)
                                     + (yhl is_parent).2 < - (2 / 10)).
  { destruct is_parent; cbn [yhl fst snd]; split; nra. }
  destruct (yhl is_parent) as [yh yl]. cbn [fst snd] in Hyr.
  destruct (decide (lpt = "any_pose"%string)) as [Hany|Hany].
  - destruct (rpy pd) as [[r0 r1] r2].
    cbn [mret result_ret] in H. injection H as <-.
    eexists. split; [reflexivity|]. cbn [position orientation fst snd].
    split; [split; nra|]. split; [exact Hyr|]. split; [reflexivity|].
    split; [|intros Hc; contradiction].
    unfold valid_pose. cbn [orientation]. unfold euler2quat.
    case_decide; apply rotation_euler2rot.
  - destruct (decide (lpt = "demo_pose"%string)) as [Hdemo|Hdemo]; [discriminate|].
    cbn [mret result_ret] in H. injection H as <-.
    eexists. split; [reflexivity|]. cbn [position orientation fst snd].
    split; [split; nra|]. split; [exact Hyr|]. split; [reflexivity|].
    split; [|intros _; reflexivity].
    eapply rotation_upright_orientation. exact Hup.
Qed.

Lemma start_pose_in_range_witness :
  exists p p0,
    start_pose "mug" "random_upright" false 1 demo_pose_draws (fun q => q) = Ok p /\
    p = p0 /\ - (25 / 100) <= (position p0).1.2 < - (2 / 10).
Proof.
  assert (Hx : 0 <= ux demo_pose_draws < 1) by (cbn; lra).
  assert (Hy : 0 <= uy demo_pose_draws < 1) by (cbn; lra).
  destruct (start_pose_returns "mug" "random_upright" false 1 demo_pose_draws
              (fun q => q)) as [p Hp]; [eexists; reflexivity | discriminate |].
  destruct (start_pose_in_range "mug" "random_upright" false 1 demo_pose_draws
              (fun q => q) p Hx Hy Hp) as (p0 & Hpp & _ & Hyr & _).
  exists p, p0. repeat split; try assumption; apply Hyr.
Defined.
